(** * RCubic execution tree ([RCubic/exectree.py]): a shallow embedding

    The Python classes [ExecJob], [ExecIter], [ExecResource],
    [ExecDependency] and [ExecTree] are embedded as records and functions,
    one module per class.  Objects that the Python code shares by reference
    (the jobs and the resources of a tree) live in the tree's lists and are
    referred to by their position there; Python exceptions are values of
    [exn] carried by [result]. *)

From Stdlib Require Import ZArith Lia Ascii String DecimalString.
From stdpp Require Import base option list strings.

(** ** Python values and exceptions *)

(** The exception classes the embedded code can raise. *)
Inductive exn :=
| KeyError | ValueError | IndexError | AttributeError
| XMLError | UnknownStateError | JobError | JobUndefinedError
| TreeDefinedError | TreeUndefinedError | DependencyError.

Inductive result (A : Type) :=
| Ok (a : A)
| Raise (e : exn).
Arguments Ok {A} a.
Arguments Raise {A} e.

Definition rbind {A B} (m : result A) (k : A → result B) : result B :=
  match m with Ok a => k a | Raise e => Raise e end.

Notation "x ←! m ; k" := (rbind m (λ x, k))
  (at level 20, m at level 100, k at level 200, only parsing, right associativity).

Definition is_ok {A} (m : result A) : bool :=
  match m with Ok _ => true | Raise _ => false end.

(** An attribute that holds an integer on one path and a string on another
    ([ExecResource.avail] is an [int] when given to the constructor and the
    raw attribute text when read from a document). *)
Inductive pyval :=
| PyInt (z : Z)
| PyStr (s : string).

(** CPython 2 ordering of an [int] against a [str]: numbers sort before
    every other type; two values of one type compare by value. *)
Definition py_lt (a b : pyval) : bool :=
  match a, b with
  | PyInt x, PyInt y => (x <? y)%Z
  | PyInt _, PyStr _ => true
  | PyStr _, PyInt _ => false
  | PyStr x, PyStr y => String.ltb x y
  end.

Definition py_ge (a b : pyval) : bool := negb (py_lt a b).

(** [l[i]] for a Python list: a negative index counts from the end, an index
    out of range raises [IndexError]. *)
Definition py_getitem {A} (l : list A) (i : Z) : result A :=
  let n := Z.of_nat (length l) in
  let j := if (i <? 0)%Z then (n + i)%Z else i in
  if (j <? 0)%Z then Raise IndexError
  else match l !! Z.to_nat j with
       | Some x => Ok x
       | None => Raise IndexError
       end.

(** ** Job states *)

Inductive jstate :=
| STATE_IDLE | STATE_RUNNING | STATE_SUCCESSFULL | STATE_FAILED
| STATE_CANCELLED | STATE_UNDEF | STATE_RESET | STATE_BLOCKED.

#[global] Instance state_eq_dec : EqDecision jstate.
Proof. solve_decision. Defined.

(** The integer each state stands for ([STATES = (0, ..., 7)]). *)
Definition state_code (s : jstate) : Z :=
  match s with
  | STATE_IDLE => 0 | STATE_RUNNING => 1 | STATE_SUCCESSFULL => 2
  | STATE_FAILED => 3 | STATE_CANCELLED => 4 | STATE_UNDEF => 5
  | STATE_RESET => 6 | STATE_BLOCKED => 7
  end%Z.

Definition STATES : list Z := [0; 1; 2; 3; 4; 5; 6; 7]%Z.

Definition all_states : list jstate :=
  [STATE_IDLE; STATE_RUNNING; STATE_SUCCESSFULL; STATE_FAILED;
   STATE_CANCELLED; STATE_UNDEF; STATE_RESET; STATE_BLOCKED].

Definition state_of_code (z : Z) : option jstate :=
  find (λ s, bool_decide (state_code s = z)) all_states.

Definition DEPENDENCY_STATES : list jstate := [STATE_SUCCESSFULL; STATE_FAILED].
Definition DONE_STATES : list jstate :=
  [STATE_SUCCESSFULL; STATE_FAILED; STATE_CANCELLED; STATE_UNDEF].
Definition SUCCESS_STATES : list jstate := [STATE_SUCCESSFULL; STATE_UNDEF].
Definition ERROR_STATES : list jstate := [STATE_FAILED; STATE_CANCELLED].
Definition PRESTART_STATES : list jstate := [STATE_IDLE; STATE_UNDEF; STATE_BLOCKED].
Definition UNDEF_JOB : string := "-".

(** [x in l] *)
Definition py_in {A} `{EqDecision A} (x : A) (l : list A) : bool :=
  bool_decide (x ∈ l).

(** ** Documents

    An [lxml] element: its tag, its attribute dictionary and its children
    in document order. *)

#[local] Unset Elimination Schemes.
Inductive Element := Elem {
  tag : string;
  attrib : list (string * string);
  children : list Element
}.
#[local] Set Elimination Schemes.

Fixpoint dict_get (d : list (string * string)) (k : string) : option string :=
  match d with
  | [] => None
  | (k', v) :: d' => if decide (k' = k) then Some v else dict_get d' k
  end.

(** [d[k] = v] *)
Fixpoint dict_set (d : list (string * string)) (k v : string) : list (string * string) :=
  match d with
  | [] => [(k, v)]
  | (k', v') :: d' => if decide (k' = k) then (k, v) :: d' else (k', v') :: dict_set d' k v
  end.

(** [xml.attrib.get(k, None)] and [xml.attrib[k]] *)
Definition attrib_get (xml : Element) (k : string) : option string :=
  dict_get (attrib xml) k.

Definition attrib_item (xml : Element) (k : string) : result string :=
  match dict_get (attrib xml) k with
  | Some v => Ok v
  | None => Raise KeyError
  end.

(** [xml.findall(t)]: the children with tag [t], in document order. *)
Definition findall (xml : Element) (t : string) : list Element :=
  filter (λ c, tag c = t) (children xml).

(** Runs [f] over [l] from left to right until one call raises. *)
Fixpoint rmap {A B} (f : A → result B) (l : list A) : result (list B) :=
  match l with
  | [] => Ok []
  | x :: l' => y ←! f x; ys ←! rmap f l'; Ok (y :: ys)
  end.

Definition py_str_bool (b : bool) : string := if b then "True" else "False".

(** [str(n)] and [int(s)] in decimal. *)
Definition py_str_int (z : Z) : string := NilZero.string_of_int (Z.to_int z).

Definition py_int (s : string) : result Z :=
  match NilZero.int_of_string s with
  | Some d => Ok (Z.of_int d)
  | None => Raise ValueError
  end.

Definition py_str (v : pyval) : string :=
  match v with PyInt z => py_str_int z | PyStr s => s end.

(** A uuid is carried as the 32 lower-case hexadecimal digits of its [hex]
    attribute.  [UUID] reads that form back (in either letter case) and
    raises [ValueError] on anything else. *)
Definition is_hex_digit (c : ascii) : bool :=
  let n := Ascii.nat_of_ascii c in
  ((48 <=? n) && (n <=? 57)) || ((97 <=? n) && (n <=? 102)) || ((65 <=? n) && (n <=? 70)).

Definition lower (c : ascii) : ascii :=
  let n := Ascii.nat_of_ascii c in
  if (65 <=? n) && (n <=? 90) then Ascii.ascii_of_nat (n + 32) else c.

Definition UUID (hex : string) : result string :=
  let cs := list_ascii_of_string hex in
  if bool_decide (length cs = 32) && forallb is_hex_digit cs
  then Ok (string_of_list_ascii (lower <$> cs))
  else Raise ValueError.

(** ** ExecIter *)

Module ExecIter.

Record t := mk {
  args : list string;
  run : Z;
  name : option string
}.

Definition init (name : option string) (args : list string) : t :=
  {| args := args; run := 0; name := name |}.

Definition len (self : t) : Z := Z.of_nat (length (args self)).

Definition is_exhausted (self : t) : bool := (len self <=? run self)%Z.

(** [increment]: the advanced iterator and the returned flag. *)
Definition increment (self : t) (inc : Z) : t * bool :=
  let self' := {| args := args self; run := run self + inc; name := name self |} in
  (self', (run self' <? len self')%Z).

Definition argument (self : t) : result string :=
  if (len self <=? 0)%Z then Ok ""
  else if (len self <? run self)%Z then py_getitem (args self) (-1)
  else py_getitem (args self) (run self).

(** [n] calls of [increment()]. *)
Fixpoint increments (n : nat) (self : t) : t :=
  match n with
  | O => self
  | S n' => fst (increment (increments n' self) 1)
  end.

End ExecIter.

(** ** ExecResource *)

Module ExecResource.

Record t := mk {
  name : string;
  uuid : string;
  avail : pyval;
  used : Z;
  event : bool;
  reserve_timeout : Z
}.

Definition with_used (r : t) (u : Z) : t :=
  {| name := name r; uuid := uuid r; avail := avail r; used := u;
     event := event r; reserve_timeout := reserve_timeout r |}.

Definition with_event (r : t) (e : bool) : t :=
  {| name := name r; uuid := uuid r; avail := avail r; used := used r;
     event := e; reserve_timeout := reserve_timeout r |}.

(** The constructor without a document; the caller appends the object to
    [tree.resources]. *)
Definition init (uuid4 : string) (name : string) (avail : Z) (reserve_timeout : Z) : t :=
  {| name := name; uuid := uuid4; avail := PyInt avail; used := 0;
     event := false; reserve_timeout := reserve_timeout |}.

(** [reserve] up to its first suspension.  [Some b]: the call returns [b]
    without waiting.  [None]: the caller is suspended in
    [self.event.wait(1)] under the reservation timeout; a flag left set by
    an earlier [release] has been consumed on the way. *)
Definition reserve_enter (blocking : bool) (r : t) : t * option bool :=
  if py_lt (avail r) (PyInt 0) then (r, Some true)
  else if py_lt (PyInt (used r)) (avail r) then (with_used r (used r + 1), Some true)
  else if blocking then ((if event r then with_event r false else r), None)
  else (r, Some false).

(** A suspended [reserve] resumes from [self.event.wait(1)]: the flag is
    cleared when it was set, and the loop condition is tested again. *)
Definition reserve_wake (r : t) : t * option bool :=
  let r1 := if event r then with_event r false else r in
  if py_ge (PyInt (used r1)) (avail r1) then (r1, None)
  else (with_used r1 (used r1 + 1), Some true).

(** The reservation timeout fires in a suspended [reserve]. *)
Definition reserve_timed_out (r : t) : t * option bool := (r, Some false).

Definition release (r : t) : t :=
  if py_ge (avail r) (PyInt 0)
  then with_event (with_used r (Z.max 0 (used r - 1))) true
  else r.

(** The atomic steps a resource goes through: a caller enters [reserve],
    a suspended caller wakes or times out, a holder calls [release]. *)
Inductive call :=
| Reserve (blocking : bool)
| Wake
| TimedOut
| Release.

(** A resource together with the number of callers suspended in
    [reserve].  A wake-up or a timeout needs a suspended caller. *)
Definition step (c : call) (st : t * nat) : option (t * nat) :=
  let '(r, waiting) := st in
  match c with
  | Reserve blocking =>
      match reserve_enter blocking r with
      | (r', Some _) => Some (r', waiting)
      | (r', None) => Some (r', S waiting)
      end
  | Wake =>
      match waiting with
      | O => None
      | S w =>
          match reserve_wake r with
          | (r', Some _) => Some (r', w)
          | (r', None) => Some (r', waiting)
          end
      end
  | TimedOut =>
      match waiting with
      | O => None
      | S w => Some (fst (reserve_timed_out r), w)
      end
  | Release => Some (release r, waiting)
  end.

Fixpoint steps (cs : list call) (st : t * nat) : option (t * nat) :=
  match cs with
  | [] => Some st
  | c :: cs' =>
      match step c st with
      | Some st' => steps cs' st'
      | None => None
      end
  end.

(** [0 <= used <= max(capacity, 0)] *)
Definition in_range (capacity : Z) (r : t) : Prop :=
  (0 ≤ used r ≤ Z.max capacity 0)%Z.

(** A resource of integer capacity [capacity] with its counter in range. *)
Definition bounded (capacity : Z) (r : t) : Prop :=
  avail r = PyInt capacity ∧ in_range capacity r.

(** [xml()] *)
Definition xml (self : t) : Element :=
  Elem "execResource"
    [("name", name self); ("uuid", uuid self); ("avail", py_str (avail self))] [].

(** [__init__(tree, xml=xml)].  [avail] is kept as the attribute's text;
    the caller appends the object to [tree.resources]. *)
Definition of_xml (xml : Element) : result t :=
  if negb (bool_decide (tag xml = "execResource")) then Raise XMLError
  else
    let name := default "" (attrib_get xml "name") in
    hex ←! attrib_item xml "uuid";
    uuidi ←! UUID hex;
    let avail :=
      match attrib_get xml "avail" with
      | Some s => PyStr s
      | None => PyInt (-1)
      end in
    Ok {| name := name; uuid := uuidi; avail := avail; used := 0;
          event := false; reserve_timeout := 60 |}.

End ExecResource.

(** ** ExecDependency *)

Module ExecDependency.

(** [parent] and [child] refer to jobs by their position in [tree.jobs];
    [ucolor] and [dcolor] are the entries ["undefined"] and ["defined"] of
    the [color] dictionary. *)
Record t := mk {
  parent : nat;
  child : nat;
  state : jstate;
  ucolor : string;
  dcolor : string
}.

(** [__init__(parent, child, state)]: [state] is whatever integer the
    caller passes. *)
Definition init (parent child : nat) (state : Z) : result t :=
  if py_in state STATES then
    match state_of_code state with
    | Some s =>
        Ok {| parent := parent; child := child; state := s;
              ucolor := "palegreen"; dcolor := "deepskyblue" |}
    | None => Raise UnknownStateError
    end
  else Raise UnknownStateError.

Definition with_color (d : t) (u dc : string) : t :=
  {| parent := parent d; child := child d; state := state d;
     ucolor := u; dcolor := dc |}.

(** [xml()]; [job_uuid] reads [uuid.hex] of the job at a position of
    [tree.jobs]. *)
Definition xml (job_uuid : nat → string) (self : t) : Element :=
  Elem "execDependency"
    [("parent", job_uuid (parent self)); ("child", job_uuid (child self));
     ("state", py_str_int (state_code (state self)));
     ("dcolor", dcolor self); ("ucolor", ucolor self)] [].

End ExecDependency.

(** ** ExecJob *)

Module ExecJob.

(** [events] is the dictionary of the eight per-state [Event] flags,
    [statechange] the flag of the broadcast event.  [subtree] refers to a
    tree by its position in [tree.subtrees] of the owning tree, and
    [resources] to resources by their position in [tree.resources]. *)
Record t := mk {
  name : string;
  uuid : string;
  _state : jstate;
  events : jstate → bool;
  statechange : bool;
  subtree : option nat;
  _jobpath : option string;
  mustcomplete : bool;
  logfile : option string;
  _progress : Z;
  override : bool;
  arguments : list string;
  resources : list nat;
  execcount : Z;
  failcount : Z;
  href : string;
  tcolor : string
}.

Definition with_state_events (j : t) (s : jstate) (ev : jstate → bool) (sc : bool) : t :=
  {| name := name j; uuid := uuid j; _state := s; events := ev;
     statechange := sc; subtree := subtree j; _jobpath := _jobpath j;
     mustcomplete := mustcomplete j; logfile := logfile j;
     _progress := _progress j; override := override j;
     arguments := arguments j; resources := resources j;
     execcount := execcount j; failcount := failcount j;
     href := href j; tcolor := tcolor j |}.

Definition with_progress (j : t) (p : Z) : t :=
  {| name := name j; uuid := uuid j; _state := _state j; events := events j;
     statechange := statechange j; subtree := subtree j; _jobpath := _jobpath j;
     mustcomplete := mustcomplete j; logfile := logfile j;
     _progress := p; override := override j;
     arguments := arguments j; resources := resources j;
     execcount := execcount j; failcount := failcount j;
     href := href j; tcolor := tcolor j |}.

Definition with_jobpath (j : t) (p : option string) : t :=
  {| name := name j; uuid := uuid j; _state := _state j; events := events j;
     statechange := statechange j; subtree := subtree j; _jobpath := p;
     mustcomplete := mustcomplete j; logfile := logfile j;
     _progress := _progress j; override := override j;
     arguments := arguments j; resources := resources j;
     execcount := execcount j; failcount := failcount j;
     href := href j; tcolor := tcolor j |}.

Definition with_counts (j : t) (ec fc : Z) : t :=
  {| name := name j; uuid := uuid j; _state := _state j; events := events j;
     statechange := statechange j; subtree := subtree j; _jobpath := _jobpath j;
     mustcomplete := mustcomplete j; logfile := logfile j;
     _progress := _progress j; override := override j;
     arguments := arguments j; resources := resources j;
     execcount := ec; failcount := fc;
     href := href j; tcolor := tcolor j |}.

(** [event.set()] on the flag of state [s]. *)
Definition set_flag (ev : jstate → bool) (s : jstate) : jstate → bool :=
  λ s', if decide (s' = s) then true else ev s'.

Definition set_event (j : t) (s : jstate) : t :=
  with_state_events j (_state j) (set_flag (events j) s) (statechange j).

(** The [state] property. *)
Definition state (self : t) : jstate := _state self.

(** The [state] setter, on a member of [STATES]. *)
Definition set_state (self : t) (value : jstate) : t :=
  if decide (_state self = value) then self
  else with_state_events self value (set_flag (events self) value) true.

(** The [progress] property and its setter. *)
Definition progress (self : t) : Z := _progress self.

Definition set_progress (self : t) (value : Z) : t :=
  if ((0 <=? value) && (value <=? 100))%Z then with_progress self value
  else self.

(** The [jobpath] property and its setter. *)
Definition jobpath (self : t) : option string := _jobpath self.

Definition set_jobpath (self : t) (value : option string) : result t :=
  if bool_decide (subtree self ≠ None) && bool_decide (value ≠ None)
  then Raise JobError
  else if py_in (state self) PRESTART_STATES then
    let self1 := with_jobpath self value in
    if bool_decide (value = Some UNDEF_JOB) && bool_decide (state self1 = STATE_IDLE)
    then Ok (set_state self1 STATE_UNDEF)
    else Ok self1
  else Raise JobError.

(** [__init__] without a document. *)
Definition init (uuid4 : string) (name : string) (jobpath : option string)
    (logfile : option string) (mustcomplete : bool) (subtree : option nat)
    (arguments : list string) (resources : list nat)
    (href tcolor : string) : result t :=
  let self0 :=
    {| name := name; uuid := uuid4; _state := STATE_IDLE;
       events := set_flag (λ _, false) STATE_IDLE; statechange := true;
       subtree := subtree; _jobpath := None;
       mustcomplete := mustcomplete; logfile := logfile;
       _progress := -1; override := false;
       arguments := arguments; resources := resources;
       execcount := 0; failcount := 0; href := href; tcolor := tcolor |} in
  set_jobpath self0 jobpath.

Definition is_done (self : t) : bool := py_in (state self) DONE_STATES.
Definition is_success (self : t) : bool := py_in (state self) SUCCESS_STATES.
Definition is_failed (self : t) : bool := bool_decide (state self = STATE_FAILED).
Definition is_cancelled (self : t) : bool := bool_decide (state self = STATE_CANCELLED).
Definition is_defined (self : t) : bool := bool_decide (state self ≠ STATE_UNDEF).

Definition reset (self : t) : t :=
  if bool_decide (state self ≠ STATE_UNDEF) then
    let self1 := with_state_events self (_state self) (λ _, false) (statechange self) in
    let self2 := if (0 <? progress self1)%Z then set_progress self1 0 else self1 in
    set_state self2 STATE_RESET
  else self.

(** [cancel]: the returned flag and the job afterwards. *)
Definition cancel (self : t) : bool * t :=
  if bool_decide (state self = STATE_RUNNING) then (false, self)
  else if py_in (state self) DONE_STATES then (true, self)
  else (true, set_state self STATE_CANCELLED).

(** What the rest of the program does to one job: the three setters,
    [reset()] and [cancel()]. *)
Inductive call :=
| SetProgress (value : Z)
| SetState (value : jstate)
| SetJobpath (value : option string)
| DoReset
| DoCancel.

(** The job after a call; a setter that raises leaves it as it was. *)
Definition apply (self : t) (c : call) : t :=
  match c with
  | SetProgress value => set_progress self value
  | SetState value => set_state self value
  | SetJobpath value =>
      match set_jobpath self value with
      | Ok self' => self'
      | Raise _ => self
      end
  | DoReset => reset self
  | DoCancel => snd (cancel self)
  end.

(** *** Queries through [self.tree]

    [self] is the position of the job in [tree.jobs]; the functions take
    the lists of the owning tree they read. *)

Definition parent_deps (deps : list ExecDependency.t) (self : nat) : list ExecDependency.t :=
  filter (λ dep, self = ExecDependency.child dep) deps.

Definition child_deps (deps : list ExecDependency.t) (self : nat) : list ExecDependency.t :=
  filter (λ dep, self = ExecDependency.parent dep) deps.

Definition children (deps : list ExecDependency.t) (self : nat) : list nat :=
  ExecDependency.child <$> child_deps deps self.

Definition parents (deps : list ExecDependency.t) (self : nat) : list nat :=
  ExecDependency.parent <$> parent_deps deps self.

Definition orphan (deps : list ExecDependency.t) (self : nat) : bool :=
  bool_decide (parent_deps deps self = []).

(** The [any(...)] of [has_defined_anscestors] over the parents still to
    ask: it stops at the first parent that is defined or has a defined
    ancestor; [rec] is the recursive call. *)
Fixpoint any_parent (rec : nat → option bool) (jobs : list t) (ps : list nat)
    : option bool :=
  match ps with
  | [] => Some false
  | p :: ps' =>
      match jobs !! p with
      | None => None
      | Some pj =>
          if is_defined pj then Some true
          else match rec p with
               | None => None
               | Some true => Some true
               | Some false => any_parent rec jobs ps'
               end
      end
  end.

(** [has_defined_anscestors].  The recursion follows parent edges and does
    not end on a cycle of undefined jobs; [None] is the recursion limit
    being hit (or a dependency on a job that is not in the tree). *)
Fixpoint has_defined_anscestors (fuel : nat) (jobs : list t)
    (deps : list ExecDependency.t) (self : nat) : option bool :=
  match fuel with
  | O => None
  | S fuel' =>
      any_parent (has_defined_anscestors fuel' jobs deps) jobs (parents deps self)
  end.

(** The messages [validate] produces. *)
Inductive verror :=
| BothSet (job : string)
    (* "subtree and jobpath of {0} are set. Only one can be set." *)
| FileMissing (prepend path job : string)
    (* "{0}File {1} for needed by job {2} does not exist." *)
| FileNotExecutable (prepend path job : string)
    (* "{0}File {1} for needed by job {2} is not executable." *)
| NoneSet
    (* "subtree or jobpath of {0} must be set." *)
| TreeEmpty (tree : string)
    (* "Tree {0} is empty, has 0 stems." *)
| MultipleStems (tree : string) (stems : list string)
    (* "Tree {0} has multiple stems ({1})." *)
| HasCycles (tree : string)
    (* "Tree {0} has cycles." *)
| NotConnected (jobs : list string) (stem : string)
    (* "The jobs {0} are not connected to {1}." *)
| IteratorEmpty.
    (* "Iterator needs at least one argument to run." *)


(** [validate(prepend)].  [path_exists] and [access_x] stand for
    [os.path.exists] and [os.access(_, os.X_OK)]; [subtree_validate] is
    [self.subtree.validate()], [None] when that call does not return. *)
Definition validate (path_exists access_x : string → bool)
    (subtree_validate : nat → option (list verror))
    (self : t) (prepend : string) : option (list verror) :=
  match jobpath self, subtree self with
  | Some _, Some _ => Some [BothSet (name self)]
  | Some p, None =>
      if bool_decide (p = UNDEF_JOB) then Some []
      else if negb (path_exists p) then Some [FileMissing prepend p (name self)]
      else if negb (access_x p) then Some [FileNotExecutable prepend p (name self)]
      else Some []
  | None, Some st => subtree_validate st
  | None, None => Some [NoneSet]
  end.

(** [xml()]; [subtree_uuid] and [resource_uuid] read [uuid.hex] of the
    object at a position of [tree.subtrees] and of [tree.resources]. *)
Definition xml (subtree_uuid resource_uuid : nat → option string) (self : t) : Element :=
  let args :=
    [("name", name self); ("uuid", uuid self);
     ("mustcomplete", py_str_bool (mustcomplete self));
     ("href", href self); ("tcolor", tcolor self)] in
  let args :=
    match jobpath self, subtree self with
    | Some p, _ => args ++ [("jobpath", p)]
    | None, Some st =>
        match subtree_uuid st with
        | Some u => args ++ [("subtreeuuid", u)]
        | None => args
        end
    | None, None => args
    end in
  let args :=
    args ++ [("logfile", default "" (logfile self))] in
  Elem "execJob" args
    (((λ arg, Elem "execArg" [("value", arg)] []) <$> arguments self)
     ++ omap (λ r, (λ u, Elem "execResource" [("uuid", u)] []) <$> resource_uuid r)
             (resources self)).

(** [__init__(tree=tree, xml=xml)]; [find_resource] and [find_subtree] are
    [tree.find_resource] and [tree.find_subtree(_, None)]. *)
Definition of_xml (find_resource find_subtree : string → option nat)
    (xml : Element) : result t :=
  if negb (bool_decide (tag xml = "execJob")) then Raise XMLError
  else
    name ←! attrib_item xml "name";
    let jobpath := attrib_get xml "jobpath" in
    hex ←! attrib_item xml "uuid";
    uuidi ←! UUID hex;
    let mustcomplete := bool_decide (attrib_get xml "mustcomplete" = Some "True") in
    let subtreeuuid := attrib_get xml "subtreeuuid" in
    let logfile := attrib_get xml "logfile" in
    let href := default "" (attrib_get xml "href") in
    let tcolor := default "lavender" (attrib_get xml "tcolor") in
    arguments ←! rmap (λ arg, attrib_item arg "value") (findall xml "execArg");
    found ←! rmap (λ resource, u ←! attrib_item resource "uuid"; Ok (find_resource u))
                  (findall xml "execResource");
    let resources := omap id found in
    let logfile := match logfile with Some "" => None | l => l end in
    js ←! (if bool_decide (jobpath = Some "") then Ok (None, None)
           else match subtreeuuid with
                | Some su =>
                    su' ←! UUID su;
                    match find_subtree su' with
                    | Some st => Ok (jobpath, Some st)
                    | None => Raise TreeDefinedError
                    end
                | None => Ok (jobpath, None)
                end);
    init uuidi name (fst js) logfile mustcomplete (snd js) arguments resources
         href tcolor.

(** The event of the state the job is in is set, unless that state is
    RESET. *)
Definition flagged (self : t) : Prop :=
  events self (state self) = true ∨ state self = STATE_RESET.

(** Not both of [jobpath] and [subtree] are set. *)
Definition one_runner (self : t) : Prop :=
  jobpath self = None ∨ subtree self = None.

End ExecJob.

(** ** ExecTree *)

Module ExecTree.

(** [jobs], [resources] and [subtrees] hold the objects that jobs and
    dependencies refer to by position.  [legend] lists the entries of the
    dictionary in iteration order. *)
#[local] Unset Elimination Schemes.
Inductive t := mk {
  jobs : list ExecJob.t;
  deps : list ExecDependency.t;
  subtrees : list t;
  done_event : bool;
  _done : bool;
  resources : list ExecResource.t;
  cancelled : bool;
  started : bool;
  legend : list (string * string);
  uuid : string;
  name : string;
  href : string;
  cwd : string;
  iterator : option ExecIter.t;
  waitsuccess : bool
}.
#[local] Set Elimination Schemes.

(** [__init__] without a document. *)
Definition init (uuid4 : string) : t :=
  {| jobs := []; deps := []; subtrees := []; done_event := false;
     _done := false; resources := []; cancelled := false; started := false;
     legend := []; uuid := uuid4; name := ""; href := ""; cwd := "/";
     iterator := None; waitsuccess := false |}.

Definition with_jobs (self : t) (js : list ExecJob.t) : t :=
  {| jobs := js; deps := deps self; subtrees := subtrees self;
     done_event := done_event self; _done := _done self;
     resources := resources self; cancelled := cancelled self;
     started := started self; legend := legend self; uuid := uuid self;
     name := name self; href := href self; cwd := cwd self;
     iterator := iterator self; waitsuccess := waitsuccess self |}.

Definition with_deps (self : t) (ds : list ExecDependency.t) : t :=
  {| jobs := jobs self; deps := ds; subtrees := subtrees self;
     done_event := done_event self; _done := _done self;
     resources := resources self; cancelled := cancelled self;
     started := started self; legend := legend self; uuid := uuid self;
     name := name self; href := href self; cwd := cwd self;
     iterator := iterator self; waitsuccess := waitsuccess self |}.

Definition with_resources (self : t) (rs : list ExecResource.t) : t :=
  {| jobs := jobs self; deps := deps self; subtrees := subtrees self;
     done_event := done_event self; _done := _done self;
     resources := rs; cancelled := cancelled self;
     started := started self; legend := legend self; uuid := uuid self;
     name := name self; href := href self; cwd := cwd self;
     iterator := iterator self; waitsuccess := waitsuccess self |}.

Definition with_iterator (self : t) (it : option ExecIter.t) : t :=
  {| jobs := jobs self; deps := deps self; subtrees := subtrees self;
     done_event := done_event self; _done := _done self;
     resources := resources self; cancelled := cancelled self;
     started := started self; legend := legend self; uuid := uuid self;
     name := name self; href := href self; cwd := cwd self;
     iterator := it; waitsuccess := waitsuccess self |}.

Definition with_legend (self : t) (l : list (string * string)) : t :=
  {| jobs := jobs self; deps := deps self; subtrees := subtrees self;
     done_event := done_event self; _done := _done self;
     resources := resources self; cancelled := cancelled self;
     started := started self; legend := l; uuid := uuid self;
     name := name self; href := href self; cwd := cwd self;
     iterator := iterator self; waitsuccess := waitsuccess self |}.

Definition with_flags (self : t) (done_ev cancel : bool) : t :=
  {| jobs := jobs self; deps := deps self; subtrees := subtrees self;
     done_event := done_ev; _done := _done self;
     resources := resources self; cancelled := cancel;
     started := started self; legend := legend self; uuid := uuid self;
     name := name self; href := href self; cwd := cwd self;
     iterator := iterator self; waitsuccess := waitsuccess self |}.

(** [find_resource]: the position of the first resource whose uuid or
    name is [needle]. *)
Definition find_resource (self : t) (needle : string) : option nat :=
  fst <$> list_find
    (λ r, needle = ExecResource.uuid r ∨ needle = ExecResource.name r)
    (resources self).

(** [find_job]: the position of the first job whose name or uuid is
    [needle]. *)
Definition find_job (self : t) (needle : string) : option nat :=
  fst <$> list_find
    (λ j, needle = ExecJob.name j ∨ needle = ExecJob.uuid j)
    (jobs self).

(** What [add_dep] is given for [parent] and [child]: a job object, or a
    name or uuid to look up. *)
Inductive jobref :=
| JobObj (i : nat)
| JobKey (needle : string).

(** [add_dep] without a document: the tree afterwards and the returned
    dependency ([None] for a duplicate). *)
Definition add_dep_with (self : t) (parent child : jobref) (state : Z)
    (colors : option (string * string)) : result (t * option ExecDependency.t) :=
  p ←! match parent with
       | JobObj i => Ok i
       | JobKey s => match find_job self s with
                     | Some i => Ok i
                     | None => Raise JobUndefinedError
                     end
       end;
  c ←! match child with
       | JobObj i => Ok i
       | JobKey s => match find_job self s with
                     | Some i => Ok i
                     | None => Raise JobUndefinedError
                     end
       end;
  if negb (bool_decide (c < length (jobs self))) then Raise JobUndefinedError
  else if negb (bool_decide (p < length (jobs self))) then Raise JobUndefinedError
  else if bool_decide (p = c) then Raise DependencyError
  else
    r ←! (if negb (py_in p (ExecJob.parents (deps self) c)) then
            dep ←! ExecDependency.init p c state;
            Ok (with_deps self (deps self ++ [dep]), Some dep)
          else Ok (self, None));
    let '(self1, dep) := r in
    match colors, dep with
    | None, _ => Ok (self1, dep)
    | Some _, None => Raise AttributeError
    | Some (u, d), Some dep0 =>
        (* [dep.color = colors] on the object that is already in [deps] *)
        let dep1 := ExecDependency.with_color dep0 u d in
        Ok (with_deps self1 (deps self ++ [dep1]), Some dep1)
    end.

Definition add_dep (self : t) (parent child : jobref) (state : Z)
    : result (t * option ExecDependency.t) :=
  add_dep_with self parent child state None.

Definition argument (self : t) : result (option string) :=
  match iterator self with
  | None => Ok None
  | Some it => a ←! ExecIter.argument it; Ok (Some a)
  end.

(** The list comprehension of [stems] over the jobs from position [i]
    on.  For a job with a defined ancestor [is_defined] is not asked. *)
Fixpoint stems_from (fuel : nat) (self : t) (i : nat) (js : list ExecJob.t)
    : option (list nat) :=
  match js with
  | [] => Some []
  | job :: js' =>
      match ExecJob.has_defined_anscestors fuel (jobs self) (deps self) i with
      | None => None
      | Some anc =>
          match stems_from fuel self (S i) js' with
          | None => None
          | Some rest =>
              Some (if negb anc && ExecJob.is_defined job then i :: rest else rest)
          end
      end
  end.

(** [stems]: the positions of the defined jobs without a defined
    ancestor, in the order of [jobs]. *)
Definition stems (fuel : nat) (self : t) : option (list nat) :=
  stems_from fuel self 0 (jobs self).

Definition leaves (self : t) : list nat :=
  filter (λ i, ExecJob.child_deps (deps self) i ≠ []) (seq 0 (length (jobs self))).

(** [list.remove(x)]: drops the first occurrence. *)
Fixpoint py_remove (x : nat) (l : list nat) : list nat :=
  match l with
  | [] => []
  | y :: l' => if decide (y = x) then l' else y :: py_remove x l'
  end.

(** The [for child in job.children()] loop of [validate_nocycles], over
    the children still to visit; [rec] is the recursive call. *)
Fixpoint visit_children (rec : nat → list nat → list nat → option (bool * list nat * list nat))
    (job : nat) (cs : list nat) (visited parents : list nat)
    : option (bool * list nat * list nat) :=
  match cs with
  | [] => Some (true, visited, py_remove job parents)
  | child :: cs' =>
      match rec child visited parents with
      | None => None
      | Some (false, v, p) => Some (false, v, p)
      | Some (true, v, p) => visit_children rec job cs' v p
      end
  end.

(** [validate_nocycles(job, visited, parents)]: the returned flag and the
    two lists, which the calls share and update, afterwards.  [None] is
    the recursion limit. *)
Fixpoint validate_nocycles (fuel : nat) (self : t) (job : nat)
    (visited parents : list nat) : option (bool * list nat * list nat) :=
  match fuel with
  | O => None
  | S fuel' =>
      if py_in job parents then Some (false, visited, parents)
      else
        let parents := parents ++ [job] in
        let visited := if py_in job visited then visited else visited ++ [job] in
        visit_children (validate_nocycles fuel' self) job
          (ExecJob.children (deps self) job) visited parents
  end.

(** A call that returns True hands [parents] back as it got it. *)
Definition restores
    (rec : nat → list nat → list nat → option (bool * list nat * list nat)) : Prop :=
  ∀ c v p v' p', rec c v p = Some (true, v', p') → p' = p.


Definition job_names (self : t) (l : list nat) : list string :=
  omap (λ i, ExecJob.name <$> jobs self !! i) l.

Definition job_name (self : t) (i : nat) : string :=
  default "" (ExecJob.name <$> jobs self !! i).

Section Validate.

(** [os.path.exists] and [os.access(_, os.X_OK)]. *)
Variables path_exists access_x : string → bool.

(** The checks of [validate] for one stem. *)
Definition validate_stem (fuel : nat) (self : t) (stem : nat)
    : option (list ExecJob.verror) :=
  match validate_nocycles fuel self stem [] [] with
  | None => None
  | Some (nocycles, visited, _) =>
      let cycles := negb nocycles in
      let unconnected :=
        filter (λ i, default false (ExecJob.is_defined <$> jobs self !! i) = true
                     ∧ i ∉ visited)
               (seq 0 (length (jobs self))) in
      Some ((if cycles then [ExecJob.HasCycles (name self)] else [])
            ++ (if bool_decide (0 < length unconnected)
                then [ExecJob.NotConnected (job_names self unconnected)
                        (job_name self stem)]
                else []))
  end.

(** Concatenates the results of [f] over [l]; [None] as soon as one
    call does not return. *)
Fixpoint collect {A B} (f : A → option (list B)) (l : list A) : option (list B) :=
  match l with
  | [] => Some []
  | x :: l' =>
      match f x with
      | None => None
      | Some ys =>
          match collect f l' with
          | None => None
          | Some zs => Some (ys ++ zs)
          end
      end
  end.

(** The per-job part of [validate]; [rec] is [validate] on a sub-tree. *)
Definition job_errors (rec : t → option (list ExecJob.verror)) (self : t)
    : option (list ExecJob.verror) :=
  collect (λ job, ExecJob.validate path_exists access_x
                    (λ i, match subtrees self !! i with
                          | Some st => rec st
                          | None => None
                          end) job "")
          (jobs self).

Definition iterator_errors (self : t) : list ExecJob.verror :=
  match iterator self with
  | Some it => if (ExecIter.len it <? 1)%Z then [ExecJob.IteratorEmpty] else []
  | None => []
  end.

(** [validate]: [None] when the call does not return (the recursion of
    [has_defined_anscestors] does not end). *)
Fixpoint validate (fuel : nat) (self : t) : option (list ExecJob.verror) :=
  match fuel with
  | O => None
  | S fuel' =>
      match stems fuel' self with
      | None => None
      | Some stems =>
          let errors0 :=
            if bool_decide (length stems = 0) then [ExecJob.TreeEmpty (name self)]
            else if bool_decide (1 < length stems)
                 then [ExecJob.MultipleStems (name self) (job_names self stems)]
                 else [] in
          match collect (validate_stem fuel' self) stems with
          | None => None
          | Some errors1 =>
              match job_errors (validate fuel') self with
              | None => None
              | Some errors2 =>
                  Some (errors0 ++ errors1 ++ errors2 ++ iterator_errors self)
              end
          end
      end
  end.

End Validate.

Definition failed_jobs (self : t) : list ExecJob.t :=
  filter (λ job, ExecJob.is_failed job = true) (jobs self).

Definition is_success (self : t) : bool :=
  forallb ExecJob.is_success (jobs self).

Definition advance (self : t) : t :=
  let self1 := with_flags self false false in
  let '(self2, inc) :=
    match iterator self1 with
    | Some it =>
        let '(it', inc) := ExecIter.increment it 1 in
        (with_iterator self1 (Some it'), inc)
    | None => (self1, true)
    end in
  if inc then with_jobs self2 (ExecJob.reset <$> jobs self2) else self2.

(** How [add_job] ends: the job is added, [JobDefinedError] is raised with
    the tree untouched, or the [tree] setter of the job raises
    [TreeDefinedError], the sub-tree of the job being appended already. *)
Inductive add_job_result :=
| Added (self : t)
| JobDefinedError
| JobTreeDefinedError (self : t).

(** [add_job(job)].  [st] is the tree object behind [job.subtree] when the
    job has one that is not in [self.subtrees] yet; [owned] tells whether
    [job.tree] is already set. *)
Definition add_job (self : t) (job : ExecJob.t) (st : option t) (owned : bool)
    : add_job_result :=
  if bool_decide (find_job self (ExecJob.name job) ≠ None) then JobDefinedError
  else
    let subtrees' :=
      match ExecJob.subtree job, st with
      | Some _, Some o => subtrees self ++ [o]
      | _, _ => subtrees self
      end in
    let self1 :=
      {| jobs := jobs self; deps := deps self; subtrees := subtrees';
         done_event := done_event self; _done := _done self;
         resources := resources self; cancelled := cancelled self;
         started := started self; legend := legend self; uuid := uuid self;
         name := name self; href := href self; cwd := cwd self;
         iterator := iterator self; waitsuccess := waitsuccess self |} in
    if owned then JobTreeDefinedError self1
    else Added (with_jobs self1 (jobs self ++ [job])).

(** A sequence of [add_dep] calls; a call that raises leaves the tree as it
    was. *)
Definition add_deps (self : t) (calls : list (jobref * jobref * Z)) : t :=
  foldl (λ tr call,
           match add_dep tr (fst (fst call)) (snd (fst call)) (snd call) with
           | Ok r => fst r
           | Raise _ => tr
           end) self calls.

(** The dependencies are between two different jobs of the tree, and no
    two of them join the same parent to the same child. *)
Definition deps_well_formed (self : t) : Prop :=
  (∀ d, d ∈ deps self →
     ExecDependency.parent d ≠ ExecDependency.child d
     ∧ ExecDependency.parent d < length (jobs self)
     ∧ ExecDependency.child d < length (jobs self))
  ∧ NoDup ((λ d, (ExecDependency.parent d, ExecDependency.child d)) <$> deps self).

(** The loop of [is_done] over the jobs: no must-complete job stops it. *)
Definition is_done_check (self : t) : bool :=
  forallb (λ job,
             if ExecJob.mustcomplete job then
               negb (negb (cancelled self) && waitsuccess self
                     && negb (ExecJob.is_success job))
               && ExecJob.is_done job
             else true)
          (jobs self).

(** [cancel()].  The call of [is_done()] that ends it finds the tree
    cancelled, so the [cancel()] inside that call returns at once.  The
    attribute [done] that [is_done] assigns is read nowhere and is not
    kept. *)
Fixpoint cancel (self : t) : t :=
  if cancelled self then self
  else
    let self1 :=
      {| jobs := (λ job, snd (ExecJob.cancel job)) <$> jobs self;
         deps := deps self;
         subtrees := (fix go (l : list t) : list t :=
                        match l with
                        | [] => []
                        | st :: l' => cancel st :: go l'
                        end) (subtrees self);
         done_event := done_event self; _done := _done self;
         resources := resources self; cancelled := true;
         started := started self; legend := legend self; uuid := uuid self;
         name := name self; href := href self; cwd := cwd self;
         iterator := iterator self; waitsuccess := waitsuccess self |} in
    if is_done_check self1 then with_flags self1 true true else self1.

(** [is_done()]: the returned flag and the tree afterwards. *)
Definition is_done (self : t) : bool * t :=
  if is_done_check self
  then (true, cancel (with_flags self true (cancelled self)))
  else (false, self).

(** Every job of the tree and of its sub-trees, at any depth, satisfies
    [P]. *)
Fixpoint all_jobs (P : ExecJob.t → Prop) (self : t) : Prop :=
  Forall P (jobs self)
  ∧ (fix go (l : list t) : Prop :=
       match l with
       | [] => True
       | st :: l' => all_jobs P st ∧ go l'
       end) (subtrees self).

(** [child] is reached from [job] along one dependency. *)
Definition child_of (self : t) (job child : nat) : Prop :=
  child ∈ ExecJob.children (deps self) job.

(** [b] is reached from [a] along one dependency or more. *)
Inductive reaches (self : t) : nat → nat → Prop :=
| reaches_child a b : child_of self a b → reaches self a b
| reaches_step a b c : child_of self a b → reaches self b c → reaches self a c.

(** [validate_nocycles(job, _, parents)] has returned True, [parents]
    being [path] at the call. *)
Definition passed_at (self : t) (job : nat) (path : list nat) : Prop :=
  ∃ fuel v v', validate_nocycles fuel self job v path = Some (true, v', path).

Section Codec.

(** [dict_by_attr(objects, 'uuid').get(key, None)] of
    [RCubic.RCubicUtilities], which is outside the sources at hand: given
    the [uuid] of each object in order and a key, the position of the
    object the dictionary returns. *)
Variable dict_by_attr_get : list string → string → option nat.

Definition find_subtree (self : t) (uuid0 : string) : option nat :=
  dict_by_attr_get (uuid <$> subtrees self) uuid0.

(** [add_dep(xml=xml)] *)
Definition add_dep_xml (self : t) (xml : Element)
    : result (t * option ExecDependency.t) :=
  if negb (bool_decide (tag xml = "execDependency")) then Raise XMLError
  else
    parent ←! attrib_item xml "parent";
    child ←! attrib_item xml "child";
    st ←! attrib_item xml "state";
    state ←! py_int st;
    ucolor ←! attrib_item xml "ucolor";
    dcolor ←! attrib_item xml "dcolor";
    add_dep_with self (JobKey parent) (JobKey child) state (Some (ucolor, dcolor)).

(** [et.Element("legendItem", {key: value})] *)
Definition legend_item (kv : string * string) : Element :=
  Elem "legendItem" [(fst kv, snd kv)] [].

(** [xml()] *)
Fixpoint xml (self : t) : Element :=
  let args :=
    [("version", "1.0"); ("name", name self); ("href", href self);
     ("uuid", uuid self); ("cwd", cwd self);
     ("waitsuccess", py_str_bool (waitsuccess self))] in
  let subtree_xml :=
    (fix go (l : list t) : list Element :=
       match l with
       | [] => []
       | st :: l' => xml st :: go l'
       end) (subtrees self) in
  let job_uuid i := default "" (ExecJob.uuid <$> jobs self !! i) in
  Elem "execTree" args
    (flat_map (λ job,
         match ExecJob.subtree job with
         | Some st => option_list (subtree_xml !! st)
         | None => []
         end
         ++ [ExecJob.xml (λ i, uuid <$> subtrees self !! i)
                         (λ i, ExecResource.uuid <$> resources self !! i) job])
       (jobs self)
     ++ (ExecDependency.xml job_uuid <$> deps self)
     ++ (ExecResource.xml <$> resources self)
     ++ (legend_item <$> legend self)).

(** [__init__(xml)].  The document branch assigns neither [iterator] nor
    [workdir]; the tree is given no iterator. *)
Fixpoint of_xml (xml : Element) : result t :=
  if negb (bool_decide (tag xml = "execTree")) then Raise XMLError
  else
    version ←! attrib_item xml "version";
    if negb (bool_decide (version = "1.0")) then Raise XMLError
    else
      let name := default "" (attrib_get xml "name") in
      let href := default "" (attrib_get xml "href") in
      hex ←! attrib_item xml "uuid";
      uuidi ←! UUID hex;
      let cwd := default "/" (attrib_get xml "cwd") in
      let waitsuccess :=
        negb (bool_decide (default "False" (attrib_get xml "waitsuccess") = "False")) in
      resources ←! rmap ExecResource.of_xml (findall xml "execResource");
      subtrees ←!
        (fix go (cs : list Element) : result (list t) :=
           match cs with
           | [] => Ok []
           | c :: cs' =>
               if bool_decide (tag c = "execTree")
               then st ←! of_xml c; sts ←! go cs'; Ok (st :: sts)
               else go cs'
           end) (children xml);
      let self0 :=
        {| jobs := []; deps := []; subtrees := subtrees; done_event := false;
           _done := false; resources := resources; cancelled := false;
           started := false; legend := []; uuid := uuidi; name := name;
           href := href; cwd := cwd; iterator := None;
           waitsuccess := waitsuccess |} in
      jobs ←! rmap (ExecJob.of_xml (find_resource self0) (find_subtree self0))
                   (findall xml "execJob");
      let self1 := with_jobs self0 jobs in
      self2 ←! foldl (λ acc xmldep, self ←! acc; r ←! add_dep_xml self xmldep; Ok (fst r))
                     (Ok self1) (findall xml "execDependency");
      legend ←! foldl (λ acc legenditem,
                         legend ←! acc;
                         key ←! attrib_item legenditem "name";
                         value ←! attrib_item legenditem "value";
                         Ok (dict_set legend key value))
                      (Ok []) (findall xml "legendItem");
      Ok {| jobs := ExecTree.jobs self2; deps := deps self2;
            subtrees := ExecTree.subtrees self2; done_event := done_event self2;
            _done := _done self2; resources := ExecTree.resources self2;
            cancelled := cancelled self2; started := started self2;
            legend := legend; uuid := uuid self2; name := ExecTree.name self2;
            href := ExecTree.href self2; cwd := ExecTree.cwd self2;
            iterator := iterator self2; waitsuccess := ExecTree.waitsuccess self2 |}.

End Codec.

End ExecTree.


(** ** The greenlets of a tree

    [Tree.run] calls [job.start()] on every job, and [start] spawns one
    greenlet running [ExecJob._run] per job.  Greenlets are scheduled
    cooperatively: one runs until it suspends (in [Event.wait], in
    [gevent.sleep], in the runner).  A greenlet is a job position and a
    program point of [_run]; a step of the system is one greenlet running
    from a suspension to the next, or a call of [start], [cancel], [reset]
    or the [jobpath] setter on a job from outside ([Tree.run], [Tree.cancel]
    and [Tree.advance] are sequences of such calls).  The dependency list of
    the tree is not changed while greenlets exist. *)

Module Engine.

(** Program points of [_run], with the local variables that are live
    there. *)
Inductive pc :=
| PStart
    (* spawned, [_run] not yet entered *)
| PWait (ds : list ExecDependency.t)
    (* in [_parent_wait]: [ds] is what is left of [self.parent_deps()],
       the greenlet is in [dep.wait()] of the first *)
| PAcquire (todo reserved : list nat) (attempt : Z)
    (* in the [for] loop of [_acquire_resources], [todo] still to reserve *)
| PReserve (r : nat) (todo reserved : list nat) (attempt : Z)
    (* suspended in [resource.reserve()] of [r] *)
| PBackoff (reserved : list nat) (attempt : Z)
    (* in [gevent.sleep] after a failed pass *)
| PRunning
    (* in the runner: [_popen] or [subtree.iterrun()] *)
| PDone (ret : option bool)
    (* [_run] has returned [ret] *)
| PRaised.
    (* [_run] was left by an exception of the runner *)

Record task := mkTask { tjob : nat; tpc : pc }.

Record sys := mkSys { tree : ExecTree.t; tasks : list task }.

(** What decides the next step of a greenlet: it simply goes on, its timed
    wait returns, the reservation timeout fires, the runner exits with a
    return code or raises. *)
Inductive choice :=
| Go
| WakeUp
| TimeOut
| Exit (rcode : Z)
| Crash.

Inductive label :=
| LStart (j : nat)
| LCancel (j : nat)
| LReset (j : nat)
| LJobpath (j : nat) (value : option string)
| LStep (i : nat) (c : choice).

(** The default of [_acquire_resources(max_attempts=1000)], which [_run]
    uses. *)
Definition max_attempts : Z := 1000.

Definition put_job (tr : ExecTree.t) (j : nat) (job : ExecJob.t) : ExecTree.t :=
  ExecTree.with_jobs tr (<[j := job]> (ExecTree.jobs tr)).

Definition put_resource (tr : ExecTree.t) (r : nat) (res : ExecResource.t) : ExecTree.t :=
  ExecTree.with_resources tr (<[r := res]> (ExecTree.resources tr)).

(** [_release_resources(resources)] *)
Definition _release_resources (tr : ExecTree.t) (resources : list nat) : ExecTree.t :=
  foldl (λ tr r,
           match ExecTree.resources tr !! r with
           | Some res => put_resource tr r (ExecResource.release res)
           | None => tr
           end) tr resources.

(** [dep.wait()] returns: the flag of [dep.state] in [dep.parent.events]
    is set. *)
Definition dep_ready (tr : ExecTree.t) (dep : ExecDependency.t) : bool :=
  match ExecTree.jobs tr !! ExecDependency.parent dep with
  | Some parent => ExecJob.events parent (ExecDependency.state dep)
  | None => false
  end.

(** A pass of [_acquire_resources] has failed: [attempt += 1], everything
    in [reserved] is released, the greenlet sleeps. *)
Definition acquire_failed (tr : ExecTree.t) (reserved : list nat) (attempt : Z)
    : pc * ExecTree.t :=
  (PBackoff reserved (attempt + 1), _release_resources tr reserved).

(** [_acquire_resources] returns [True] after its loop ([state = IDLE]) and
    [_run] goes on to [state = RUNNING] and into the runner. *)
Definition acquired (tr : ExecTree.t) (j : nat) (job : ExecJob.t) : pc * ExecTree.t :=
  let job := ExecJob.set_state job STATE_IDLE in
  (PRunning, put_job tr j (ExecJob.set_state job STATE_RUNNING)).

(** One greenlet, for the job at [j], from one suspension to the next. *)
Definition task_step (c : choice) (j : nat) (p : pc) (tr : ExecTree.t)
    : option (pc * ExecTree.t) :=
  job ← ExecTree.jobs tr !! j;
  match p, c with
  | PStart, Go => Some (PWait (ExecJob.parent_deps (ExecTree.deps tr) j), tr)
  | PWait (dep :: ds), Go =>
      if dep_ready tr dep then Some (PWait ds, tr) else None
  | PWait [], Go =>
      if bool_decide (ExecJob.state job = STATE_UNDEF) then
        let job := ExecJob.set_event job STATE_RUNNING in
        let job := ExecJob.set_event job STATE_SUCCESSFULL in
        Some (PDone (Some true), put_job tr j job)
      else if py_in (ExecJob.state job) DONE_STATES then Some (PDone None, tr)
      else if bool_decide (length (ExecJob.resources job) < 1) then
        (* [_acquire_resources] returns [True] at once *)
        Some (PRunning, put_job tr j (ExecJob.set_state job STATE_RUNNING))
      else
        Some (PAcquire (ExecJob.resources job) [] 0,
              put_job tr j (ExecJob.set_state job STATE_BLOCKED))
  | PAcquire (r :: todo) reserved attempt, Go =>
      res ← ExecTree.resources tr !! r;
      match ExecResource.reserve_enter true res with
      | (res, Some true) =>
          Some (PAcquire todo (reserved ++ [r]) attempt, put_resource tr r res)
      | (res, Some false) =>
          Some (acquire_failed (put_resource tr r res) reserved attempt)
      | (res, None) =>
          Some (PReserve r todo reserved attempt, put_resource tr r res)
      end
  | PAcquire [] reserved attempt, Go => Some (acquired tr j job)
  | PReserve r todo reserved attempt, WakeUp =>
      res ← ExecTree.resources tr !! r;
      match ExecResource.reserve_wake res with
      | (res, Some true) =>
          Some (PAcquire todo (reserved ++ [r]) attempt, put_resource tr r res)
      | (res, Some false) =>
          Some (acquire_failed (put_resource tr r res) reserved attempt)
      | (res, None) =>
          Some (PReserve r todo reserved attempt, put_resource tr r res)
      end
  | PReserve r todo reserved attempt, TimeOut =>
      res ← ExecTree.resources tr !! r;
      Some (acquire_failed
              (put_resource tr r (fst (ExecResource.reserve_timed_out res)))
              reserved attempt)
  | PBackoff reserved attempt, Go =>
      if ((0 <? max_attempts) && (max_attempts <=? attempt))%Z then
        (* [break], [state = IDLE], [return lastacquire]; then in [_run]:
           [state = FAILED], [return False] *)
        let job := ExecJob.set_state job STATE_IDLE in
        Some (PDone (Some false), put_job tr j (ExecJob.set_state job STATE_FAILED))
      else Some (PAcquire (ExecJob.resources job) reserved attempt, tr)
  | PRunning, Exit rcode =>
      let tr := _release_resources tr (ExecJob.resources job) in
      let job := ExecJob.with_counts job (ExecJob.execcount job + 1) (ExecJob.failcount job) in
      if bool_decide (rcode = 0%Z) then
        Some (PDone (Some true), put_job tr j (ExecJob.set_state job STATE_SUCCESSFULL))
      else
        let job := ExecJob.with_counts job (ExecJob.execcount job) (ExecJob.failcount job + 1) in
        Some (PDone (Some false), put_job tr j (ExecJob.set_state job STATE_FAILED))
  | PRunning, Crash =>
      Some (PRaised, _release_resources tr (ExecJob.resources job))
  | _, _ => None
  end.

(** [job.start()] *)
Definition start (s : sys) (j : nat) : option sys :=
  job ← ExecTree.jobs (tree s) !! j;
  if bool_decide (ExecJob.state job = STATE_UNDEF)
     && ExecJob.orphan (ExecTree.deps (tree s)) j then
    let job := ExecJob.set_event job STATE_RUNNING in
    let job := ExecJob.set_event job STATE_SUCCESSFULL in
    Some {| tree := put_job (tree s) j job; tasks := tasks s |}
  else if bool_decide (ExecJob.state job = STATE_SUCCESSFULL) then Some s
  else Some {| tree := tree s; tasks := tasks s ++ [{| tjob := j; tpc := PStart |}] |}.

(** One step of the system; [None] when the step cannot be taken (a
    greenlet that is still suspended, a position outside the lists). *)
Definition step (l : label) (s : sys) : option sys :=
  match l with
  | LStart j => start s j
  | LCancel j =>
      job ← ExecTree.jobs (tree s) !! j;
      Some {| tree := put_job (tree s) j (snd (ExecJob.cancel job)); tasks := tasks s |}
  | LReset j =>
      job ← ExecTree.jobs (tree s) !! j;
      Some {| tree := put_job (tree s) j (ExecJob.reset job); tasks := tasks s |}
  | LJobpath j value =>
      job ← ExecTree.jobs (tree s) !! j;
      match ExecJob.set_jobpath job value with
      | Ok job => Some {| tree := put_job (tree s) j job; tasks := tasks s |}
      | Raise _ => Some s
      end
  | LStep i c =>
      t ← tasks s !! i;
      r ← task_step c (tjob t) (tpc t) (tree s);
      Some {| tree := snd r; tasks := <[i := {| tjob := tjob t; tpc := fst r |}]> (tasks s) |}
  end.

(** The states a schedule goes through, the first one included. *)
Fixpoint run (ls : list label) (s : sys) : option (list sys) :=
  match ls with
  | [] => Some [s]
  | l :: ls' =>
      s' ← step l s;
      tr ← run ls' s';
      Some (s :: tr)
  end.

Definition job_state (s : sys) (j : nat) : option jstate :=
  ExecJob.state <$> ExecTree.jobs (tree s) !! j.

Definition used (s : sys) (r : nat) : option Z :=
  ExecResource.used <$> ExecTree.resources (tree s) !! r.

(** The event of [dep.state] of the parent of [dep] is set in [s]:
    [dep.parent.events[dep.state].is_set()] on the parent as the tree has
    it in [s]. *)
Definition event_set (s : sys) (dep : ExecDependency.t) : Prop :=
  ∃ parent,
    ExecTree.jobs (tree s) !! ExecDependency.parent dep = Some parent
    ∧ ExecJob.events parent (ExecDependency.state dep) = true.

(** The job at [j] enters RUNNING by the step from [s] to [s']. *)
Definition enters_running (s s' : sys) (j : nat) : Prop :=
  job_state s j ≠ Some STATE_RUNNING ∧ job_state s' j = Some STATE_RUNNING.

(** The inbound dependencies of the job at [j]: [job.parent_deps()]. *)
Definition inbound (s : sys) (j : nat) : list ExecDependency.t :=
  ExecJob.parent_deps (ExecTree.deps (tree s)) j.

(** The dependencies a greenlet at program point [p] has still to wait
    for, [all] being the inbound dependencies of its job. *)
Definition waiting_on (p : pc) (all : list ExecDependency.t) : list ExecDependency.t :=
  match p with
  | PStart => all
  | PWait ds => ds
  | _ => []
  end.

(** The event of [dep] was set in one of the states [past]. *)
Definition seen (past : list sys) (dep : ExecDependency.t) : Prop :=
  ∃ s, s ∈ past ∧ event_set s dep.

(** Every greenlet has seen, in the states [past], the event of each
    inbound dependency of its job that it is no longer waiting for. *)
Definition waits_done (past : list sys) (s : sys) : Prop :=
  ∀ i t dep,
    tasks s !! i = Some t → dep ∈ inbound s (tjob t) →
    dep ∈ waiting_on (tpc t) (inbound s (tjob t)) ∨ seen past dep.

(** Each resource of the tree has the integer capacity listed for it in
    [capacities] and its counter in range. *)
Definition resources_bounded (capacities : list Z) (s : sys) : Prop :=
  Forall2 ExecResource.bounded capacities (ExecTree.resources (tree s)).

(** No job has failed more often than it has run. *)
Definition counts_ordered (s : sys) : Prop :=
  Forall (λ job, (0 ≤ ExecJob.failcount job ≤ ExecJob.execcount job)%Z)
         (ExecTree.jobs (tree s)).

End Engine.


(** ** Sample objects *)

Module Examples.

(** The job [ExecJob(name, jobpath, resources=...)] builds, with a given
    uuid. *)
Definition job (uuid4 name jobpath : string) (resources : list nat) : ExecJob.t :=
  {| ExecJob.name := name; ExecJob.uuid := uuid4; ExecJob._state := STATE_IDLE;
     ExecJob.events := ExecJob.set_flag (λ _, false) STATE_IDLE;
     ExecJob.statechange := true; ExecJob.subtree := None;
     ExecJob._jobpath := Some jobpath; ExecJob.mustcomplete := true;
     ExecJob.logfile := None; ExecJob._progress := -1;
     ExecJob.override := false; ExecJob.arguments := [];
     ExecJob.resources := resources; ExecJob.execcount := 0;
     ExecJob.failcount := 0; ExecJob.href := ""; ExecJob.tcolor := "lavender" |}.

Definition uuid_t : string := "00000000000000000000000000000001".
Definition uuid_a : string := "0000000000000000000000000000000a".
Definition uuid_b : string := "0000000000000000000000000000000b".
Definition uuid_c : string := "0000000000000000000000000000000c".

(** A tree with the given jobs, dependencies and resources and nothing
    else set. *)
Definition tree_of (jobs : list ExecJob.t) (deps : list ExecDependency.t)
    (resources : list ExecResource.t) : ExecTree.t :=
  ExecTree.with_resources
    (ExecTree.with_deps (ExecTree.with_jobs (ExecTree.init uuid_t) jobs) deps)
    resources.

(** A sub-tree iterated over the single argument ["x"] whose only job has
    just succeeded. *)
Definition iterated_once : ExecTree.t :=
  ExecTree.with_iterator
    (tree_of [ExecJob.set_state
                (ExecJob.set_state (job uuid_a "a" "/bin/true" []) STATE_RUNNING)
                STATE_SUCCESSFULL] [] [])
    (Some (ExecIter.init None ["x"])).

(** The dependency [ExecDependency(parent, child)] builds. *)
Definition dep (parent child : nat) : ExecDependency.t :=
  ExecDependency.mk parent child STATE_SUCCESSFULL "palegreen" "deepskyblue".

(** Two command jobs A and B with the dependencies A → B and B → A. *)
Definition cyclic_pair : ExecTree.t :=
  tree_of [job uuid_a "A" "/bin/true" []; job uuid_b "B" "/bin/true" []]
          [dep 0 1; dep 1 0] [].

(** Two resources, [cpu] of capacity 2 and [db] of capacity 1, and three
    jobs without dependencies: K needs [cpu], L needs [db], J needs [cpu]
    and [db]. *)
Definition contention : Engine.sys :=
  {| Engine.tree :=
       tree_of [job uuid_a "K" "/bin/k" [0]; job uuid_b "L" "/bin/l" [1];
                job uuid_c "J" "/bin/j" [0; 1]]
               []
               [ExecResource.init "000000000000000000000000000000f0" "cpu" 2 60;
                ExecResource.init "000000000000000000000000000000f1" "db" 1 60];
     Engine.tasks := [] |}.

(** [Tree.run] starts the three jobs.  K and L reserve their resource and
    enter their runner.  J reserves [cpu], times out on [db], releases and
    sleeps, twice over; then L exits, and the third pass of J succeeds; J
    runs and exits.  K stays in its runner throughout. *)
Definition retry_schedule : list Engine.label :=
  [Engine.LStart 0; Engine.LStart 1; Engine.LStart 2]
  ++ replicate 4 (Engine.LStep 0 Engine.Go)
  ++ replicate 4 (Engine.LStep 1 Engine.Go)
  ++ [Engine.LStep 2 Engine.Go; Engine.LStep 2 Engine.Go]
  ++ [Engine.LStep 2 Engine.Go; Engine.LStep 2 Engine.Go;
      Engine.LStep 2 Engine.TimeOut; Engine.LStep 2 Engine.Go]
  ++ [Engine.LStep 2 Engine.Go; Engine.LStep 2 Engine.Go;
      Engine.LStep 2 Engine.TimeOut; Engine.LStep 2 Engine.Go]
  ++ [Engine.LStep 1 (Engine.Exit 0)]
  ++ [Engine.LStep 2 Engine.Go; Engine.LStep 2 Engine.Go; Engine.LStep 2 Engine.Go;
      Engine.LStep 2 (Engine.Exit 0)].

(** Two command jobs with the dependency A → B. *)
Definition chain : Engine.sys :=
  {| Engine.tree :=
       tree_of [job uuid_a "A" "/bin/true" []; job uuid_b "B" "/bin/true" []]
               [dep 0 1] [];
     Engine.tasks := [] |}.

(** Both jobs are started; A goes through [_run] and exits with 0; B, whose
    wait on A now returns, enters its runner. *)
Definition chain_schedule : list Engine.label :=
  [Engine.LStart 0; Engine.LStart 1;
   Engine.LStep 0 Engine.Go; Engine.LStep 0 Engine.Go; Engine.LStep 0 (Engine.Exit 0);
   Engine.LStep 1 Engine.Go; Engine.LStep 1 Engine.Go; Engine.LStep 1 Engine.Go].

(** The states the two schedules go through. *)
Definition retry_trace : list Engine.sys :=
  Eval vm_compute in default [] (Engine.run retry_schedule contention).

Definition chain_trace : list Engine.sys :=
  Eval vm_compute in default [] (Engine.run chain_schedule chain).

(** The states of [chain_trace] before and after the step that takes B
    into RUNNING. *)
Definition chain_before : Engine.sys :=
  Eval vm_compute in default chain (chain_trace !! 7).

Definition chain_after : Engine.sys :=
  Eval vm_compute in default chain (chain_trace !! 8).

(** An empty tree with one legend entry, [tree.legend["owner"] = "ops"]. *)
Definition legend_tree : ExecTree.t :=
  ExecTree.with_legend (ExecTree.init uuid_t) [("owner", "ops")].

(** A tree with the resource [ExecResource(tree, "db", avail=5)]. *)
Definition resource_tree : ExecTree.t :=
  tree_of [] [] [ExecResource.init "000000000000000000000000000000f1" "db" 5 60].


End Examples.

(** * Properties *)

(** ** ExecIter.argument *)

Lemma py_getitem_lookup {A} (l : list A) (i : nat) (x : A) :
  l !! i = Some x → py_getitem l (Z.of_nat i) = Ok x.
Proof.
  intros H. unfold py_getitem. cbv zeta.
  assert ((Z.of_nat i <? 0)%Z = false) as Hge by (apply Z.ltb_ge; lia).
  rewrite Hge. cbv iota. rewrite Hge.
  rewrite Nat2Z.id, H. reflexivity.
Qed.

Lemma py_getitem_length {A} (l : list A) :
  py_getitem l (Z.of_nat (length l)) = Raise IndexError.
Proof.
  unfold py_getitem. cbv zeta.
  assert ((Z.of_nat (length l) <? 0)%Z = false) as Hge by (apply Z.ltb_ge; lia).
  rewrite Hge. cbv iota. rewrite Hge.
  rewrite Nat2Z.id.
  rewrite (proj2 (lookup_ge_None l (length l))) by lia. reflexivity.
Qed.

(** Below the end of the list the cursor selects its own element. *)
Lemma argument_in_range (it : ExecIter.t) (i : nat) (x : string) :
  ExecIter.run it = Z.of_nat i → ExecIter.args it !! i = Some x →
  ExecIter.argument it = Ok x.
Proof.
  intros Hrun Hx. unfold ExecIter.argument, ExecIter.len.
  pose proof (lookup_lt_Some _ _ _ Hx) as Hlt.
  destruct (Z.leb_spec (Z.of_nat (length (ExecIter.args it))) 0); [lia |].
  destruct (Z.ltb_spec (Z.of_nat (length (ExecIter.args it))) (ExecIter.run it)); [lia |].
  rewrite Hrun. by apply py_getitem_lookup.
Qed.

(** C7: with a non-empty argument list and the cursor at [len(args)] (the
    value it has once the iterator is exhausted), [argument] does not
    return [args[len(args) - 1]]: the test [run > len(args)] is false there,
    [args[run]] is evaluated and raises [IndexError]. *)
Theorem argument_at_len_raises (args : list string) (name : option string) :
  args ≠ [] →
  ExecIter.argument
    {| ExecIter.args := args; ExecIter.run := Z.of_nat (length args);
       ExecIter.name := name |} = Raise IndexError.
Proof.
  intros Hne. unfold ExecIter.argument, ExecIter.len. simpl.
  destruct args as [| a args']; [done |].
  destruct (Z.leb_spec (Z.of_nat (length (a :: args'))) 0) as [Hle | _];
    [simpl in Hle; lia |].
  rewrite Z.ltb_irrefl. apply py_getitem_length.
Qed.

Lemma argument_at_len_raises_witness :
  ["x"] ≠ ([] : list string) ∧
  ExecIter.argument
    {| ExecIter.args := ["x"]; ExecIter.run := 1; ExecIter.name := None |}
  = Raise IndexError.
Proof.
  split; [discriminate |].
  apply (argument_at_len_raises ["x"] None). discriminate.
Defined.

(** ** ExecDependency.__init__ *)

Lemma state_of_code_STATES (z : Z) :
  z ∈ STATES → ∃ s, state_of_code z = Some s ∧ state_code s = z.
Proof.
  unfold STATES. rewrite !elem_of_cons, elem_of_nil.
  intros H. repeat (destruct H as [-> | H]; [eexists; split; reflexivity |]).
  done.
Qed.

(** C8, as the code has it: the constructor accepts each of the eight job
    states of [STATES] and stores it, and it raises [UnknownStateError] for
    every other integer.  SUCCESSFUL (2) and FAILED (3) are accepted. *)
Theorem dependency_init_STATES (p c : nat) (z : Z) :
  (match ExecDependency.init p c z with
   | Ok d =>
       z ∈ STATES ∧ ExecDependency.parent d = p ∧ ExecDependency.child d = c
       ∧ state_code (ExecDependency.state d) = z
   | Raise e => (z ∉ STATES) ∧ e = UnknownStateError
   end)
  ∧ is_ok (ExecDependency.init p c (state_code STATE_SUCCESSFULL)) = true
  ∧ is_ok (ExecDependency.init p c (state_code STATE_FAILED)) = true.
Proof.
  split; [| split; reflexivity].
  unfold ExecDependency.init, py_in.
  case_bool_decide as Hin.
  - destruct (state_of_code_STATES z Hin) as (s & -> & Hs). simpl. done.
  - done.
Qed.

(** C8 fails as stated: IDLE (0) is neither SUCCESSFUL nor FAILED, and a
    dependency that requires it is constructed. *)
Lemma dependency_on_idle_accepted :
  (state_code STATE_IDLE ∉ (state_code <$> DEPENDENCY_STATES))
  ∧ ExecDependency.init 0 1 (state_code STATE_IDLE)
    = Ok {| ExecDependency.parent := 0; ExecDependency.child := 1;
            ExecDependency.state := STATE_IDLE;
            ExecDependency.ucolor := "palegreen";
            ExecDependency.dcolor := "deepskyblue" |}.
Proof.
  split; [| reflexivity].
  simpl. rewrite !elem_of_cons, elem_of_nil. intros [H | [H | []]]; discriminate.
Qed.

(** ** ExecJob.cancel *)

(** C9: [cancel] on a RUNNING job returns [False] and changes nothing; on a
    job in a DONE state it returns [True] and changes nothing; on any other
    job it returns [True] and the state is CANCELLED afterwards. *)
Theorem cancel_spec (j : ExecJob.t) :
  (ExecJob.state j = STATE_RUNNING → ExecJob.cancel j = (false, j))
  ∧ (ExecJob.state j ∈ DONE_STATES → ExecJob.cancel j = (true, j))
  ∧ (ExecJob.state j ≠ STATE_RUNNING → ExecJob.state j ∉ DONE_STATES →
     fst (ExecJob.cancel j) = true
     ∧ ExecJob.state (snd (ExecJob.cancel j)) = STATE_CANCELLED).
Proof.
  unfold ExecJob.cancel, py_in. split; [| split].
  - intros ->. reflexivity.
  - intros Hdone. case_bool_decide as Hrun.
    + rewrite Hrun in Hdone. unfold DONE_STATES in Hdone.
      rewrite !elem_of_cons, elem_of_nil in Hdone.
      destruct Hdone as [? | [? | [? | [? | []]]]]; discriminate.
    + by rewrite bool_decide_eq_true_2.
  - intros Hrun Hdone.
    rewrite bool_decide_eq_false_2 by done.
    rewrite bool_decide_eq_false_2 by done.
    split; [reflexivity |]. simpl.
    unfold ExecJob.set_state. case_decide as Hc; [unfold ExecJob.state; done |].
    reflexivity.
Qed.

Lemma cancel_spec_witness :
  let running := ExecJob.set_state
    (ExecJob.mk "a" "00000000000000000000000000000001" STATE_IDLE (λ _, false)
       false None (Some "/bin/true") true None (-1) false [] [] 0 0 "" "lavender")
    STATE_RUNNING in
  let failed := ExecJob.set_state running STATE_FAILED in
  let blocked := ExecJob.set_state running STATE_BLOCKED in
  ExecJob.cancel running = (false, running)
  ∧ ExecJob.cancel failed = (true, failed)
  ∧ fst (ExecJob.cancel blocked) = true
  ∧ ExecJob.state (snd (ExecJob.cancel blocked)) = STATE_CANCELLED.
Proof.
  intros running failed blocked. split; [| split].
  - apply (proj1 (cancel_spec running)). reflexivity.
  - apply (proj1 (proj2 (cancel_spec failed))). vm_compute.
    apply list_elem_of_In. simpl. tauto.
  - apply (proj2 (proj2 (cancel_spec blocked))).
    + discriminate.
    + vm_compute. intros H. apply list_elem_of_In in H. simpl in H.
      repeat (destruct H as [H | H]; [discriminate |]). done.
Defined.

(** ** ExecJob.progress *)

Lemma set_progress_range (j : ExecJob.t) (v : Z) :
  (ExecJob.progress j = -1 ∨ 0 ≤ ExecJob.progress j ≤ 100)%Z →
  (ExecJob.progress (ExecJob.set_progress j v) = -1
   ∨ 0 ≤ ExecJob.progress (ExecJob.set_progress j v) ≤ 100)%Z.
Proof.
  intros H. unfold ExecJob.set_progress.
  destruct (Z.leb_spec 0 v), (Z.leb_spec v 100); simpl; try done.
  right. unfold ExecJob.progress. simpl. lia.
Qed.

Lemma set_state_progress (j : ExecJob.t) (s : jstate) :
  ExecJob.progress (ExecJob.set_state j s) = ExecJob.progress j.
Proof. unfold ExecJob.set_state. by case_decide. Qed.

Lemma apply_progress_range (j : ExecJob.t) (c : ExecJob.call) :
  (ExecJob.progress j = -1 ∨ 0 ≤ ExecJob.progress j ≤ 100)%Z →
  (ExecJob.progress (ExecJob.apply j c) = -1
   ∨ 0 ≤ ExecJob.progress (ExecJob.apply j c) ≤ 100)%Z.
Proof.
  intros H. destruct c as [v | s | p | |]; simpl.
  - by apply set_progress_range.
  - by rewrite set_state_progress.
  - unfold ExecJob.set_jobpath.
    repeat (case_match; simplify_eq; simpl; try done).
    all: by rewrite ?set_state_progress.
  - unfold ExecJob.reset. case_bool_decide; [| done].
    rewrite set_state_progress.
    case_match; [apply set_progress_range |]; done.
  - unfold ExecJob.cancel.
    repeat (case_match; simpl; try done); by rewrite ?set_state_progress.
Qed.

(** C10: assigning [progress] a value outside [0, 100] leaves the stored
    progress as it was, and a job made by the constructor has, after any
    sequence of assignments to [progress] (and of the other calls that act
    on a job), a progress that is -1 or lies in [0, 100]. *)
Theorem progress_range :
  (∀ (j : ExecJob.t) (v : Z),
     (v < 0 ∨ 100 < v)%Z →
     ExecJob.progress (ExecJob.set_progress j v) = ExecJob.progress j)
  ∧ (∀ uuid4 name jobpath logfile mustcomplete subtree arguments resources
       href tcolor (j0 : ExecJob.t) (calls : list ExecJob.call),
       ExecJob.init uuid4 name jobpath logfile mustcomplete subtree arguments
         resources href tcolor = Ok j0 →
       (ExecJob.progress (foldl ExecJob.apply j0 calls) = -1
        ∨ 0 ≤ ExecJob.progress (foldl ExecJob.apply j0 calls) ≤ 100)%Z).
Proof.
  split.
  - intros j v Hv. unfold ExecJob.set_progress.
    destruct (Z.leb_spec 0 v), (Z.leb_spec v 100); simpl; try done; lia.
  - intros ?????????? j0 calls Hinit.
    assert (ExecJob.progress j0 = -1)%Z as H0.
    { unfold ExecJob.init, ExecJob.set_jobpath in Hinit.
      repeat (case_match; simplify_eq); try done;
        by rewrite ?set_state_progress. }
    assert (ExecJob.progress j0 = -1 ∨ 0 ≤ ExecJob.progress j0 ≤ 100)%Z as H
      by (by left).
    clear H0 Hinit. revert j0 H.
    induction calls as [| c calls IH]; intros j0 H; simpl; [done |].
    apply IH. by apply apply_progress_range.
Qed.

Lemma progress_range_witness :
  ∃ j0,
    ExecJob.init "00000000000000000000000000000001" "a" (Some "/bin/true")
      None true None [] [] "" "lavender" = Ok j0
    ∧ ExecJob.progress (ExecJob.set_progress j0 101) = ExecJob.progress j0
    ∧ let j := foldl ExecJob.apply j0
                 [ExecJob.SetProgress 40; ExecJob.SetProgress 101;
                  ExecJob.DoReset; ExecJob.SetProgress (-5)] in
      (ExecJob.progress j = -1 ∨ 0 ≤ ExecJob.progress j ≤ 100)%Z.
Proof.
  eexists. split; [reflexivity |]. split.
  - apply (proj1 progress_range). lia.
  - apply (proj2 progress_range "00000000000000000000000000000001" "a"
             (Some "/bin/true") None true None [] [] "" "lavender").
    reflexivity.
Defined.

(** ** ExecTree.advance *)

(** C6, as the code has it: [advance] clears the done flag and [cancelled]
    and moves the cursor of the iterator, when there is one, by one; it
    calls [reset] on every job when the tree has no iterator or the moved
    cursor is still below [len(args)], and leaves the jobs as they are when
    the move exhausts the iterator. *)
Theorem advance_spec (t : ExecTree.t) :
  let t' := ExecTree.advance t in
  ExecTree.done_event t' = false
  ∧ ExecTree.cancelled t' = false
  ∧ ExecTree.iterator t'
    = (λ it, ExecIter.mk (ExecIter.args it) (ExecIter.run it + 1) (ExecIter.name it))
        <$> ExecTree.iterator t
  ∧ ExecTree.jobs t'
    = (if match ExecTree.iterator t with
          | None => true
          | Some it => bool_decide (ExecIter.run it + 1 < ExecIter.len it)%Z
          end
       then ExecJob.reset <$> ExecTree.jobs t
       else ExecTree.jobs t)
  ∧ ExecTree.deps t' = ExecTree.deps t
  ∧ ExecTree.resources t' = ExecTree.resources t.
Proof.
  cbv zeta. unfold ExecTree.advance. simpl.
  destruct (ExecTree.iterator t) as [it |] eqn:Hit; simpl.
  - unfold ExecIter.len. simpl.
    destruct (Z.ltb_spec (ExecIter.run it + 1)
                (Z.of_nat (length (ExecIter.args it)))) as [Hlt | Hge]; simpl.
    + rewrite bool_decide_eq_true_2 by done. repeat split; reflexivity.
    + rewrite bool_decide_eq_false_2 by lia. repeat split; reflexivity.
  - rewrite ?Hit. repeat split; reflexivity.
Qed.

(** C6 fails as stated: the iterator of [iterated_once] is exhausted by the
    increment, and the job, which [reset] would put in RESET, is still
    SUCCESSFUL after [advance]. *)
Lemma advance_exhausting_keeps_jobs :
  ExecIter.is_exhausted <$> ExecTree.iterator (ExecTree.advance Examples.iterated_once)
  = Some true
  ∧ ExecJob.state <$> ExecTree.jobs (ExecTree.advance Examples.iterated_once)
    = [STATE_SUCCESSFULL]
  ∧ ExecJob.state <$> (ExecJob.reset <$> ExecTree.jobs Examples.iterated_once)
    = [STATE_RESET].
Proof. repeat split. Qed.

(** ** ExecResource.reserve and release *)

Section ResourceRange.

Variable capacity : Z.

Lemma reserve_enter_used (blocking : bool) (r : ExecResource.t) :
  ExecResource.avail r = PyInt capacity →
  ExecResource.used (fst (ExecResource.reserve_enter blocking r))
  = (if (ExecResource.used r <? capacity)%Z && (0 <=? capacity)%Z
     then ExecResource.used r + 1 else ExecResource.used r)%Z
  ∧ ExecResource.avail (fst (ExecResource.reserve_enter blocking r)) = PyInt capacity.
Proof.
  intros Ha. unfold ExecResource.reserve_enter. rewrite Ha. simpl.
  destruct (Z.ltb_spec capacity 0), (Z.ltb_spec (ExecResource.used r) capacity),
    (Z.leb_spec 0 capacity); simpl; try lia; try done.
  all: destruct blocking; simpl; try done.
  all: destruct (ExecResource.event r); done.
Qed.

Lemma reserve_wake_used (r : ExecResource.t) :
  ExecResource.avail r = PyInt capacity →
  ExecResource.used (fst (ExecResource.reserve_wake r))
  = (if (ExecResource.used r <? capacity)%Z
     then ExecResource.used r + 1 else ExecResource.used r)%Z
  ∧ ExecResource.avail (fst (ExecResource.reserve_wake r)) = PyInt capacity.
Proof.
  intros Ha. unfold ExecResource.reserve_wake, py_ge.
  destruct (ExecResource.event r); simpl; rewrite Ha; simpl.
  all: destruct (Z.ltb_spec (ExecResource.used r) capacity); simpl; done.
Qed.

Lemma release_used (r : ExecResource.t) :
  ExecResource.avail r = PyInt capacity →
  ExecResource.used (ExecResource.release r)
  = (if (capacity <? 0)%Z then ExecResource.used r
     else Z.max 0 (ExecResource.used r - 1))
  ∧ ExecResource.avail (ExecResource.release r) = PyInt capacity.
Proof.
  intros Ha. unfold ExecResource.release, py_ge. rewrite Ha. simpl.
  destruct (Z.ltb_spec capacity 0); simpl; done.
Qed.

Lemma step_ok (c : ExecResource.call) (r r' : ExecResource.t) (w w' : nat) :
  ExecResource.bounded capacity r → ExecResource.step c (r, w) = Some (r', w') →
  ExecResource.bounded capacity r'.
Proof.
  unfold ExecResource.bounded, ExecResource.in_range. intros [Ha Hr] Hstep.
  destruct c as [blocking | | |]; simpl in Hstep.
  - destruct (reserve_enter_used blocking r Ha) as [Hu Ha'].
    destruct (ExecResource.reserve_enter blocking r) as [r1 [b |]];
      simplify_eq; simpl in *; (split; [done |]); rewrite Hu;
      destruct (Z.ltb_spec (ExecResource.used r) capacity),
        (Z.leb_spec 0 capacity); simpl; lia.
  - destruct w as [| w0]; [done |].
    destruct (reserve_wake_used r Ha) as [Hu Ha'].
    destruct (ExecResource.reserve_wake r) as [r1 [b |]];
      simplify_eq; simpl in *; (split; [done |]); rewrite Hu;
      destruct (Z.ltb_spec (ExecResource.used r) capacity); lia.
  - destruct w as [| w0]; [done |]. simplify_eq. done.
  - simplify_eq. destruct (release_used r Ha) as [Hu Ha'].
    split; [done |]. rewrite Hu.
    destruct (Z.ltb_spec capacity 0); lia.
Qed.

Lemma steps_ok (cs : list ExecResource.call) (r r' : ExecResource.t) (w w' : nat) :
  ExecResource.bounded capacity r → ExecResource.steps cs (r, w) = Some (r', w') →
  ExecResource.bounded capacity r'.
Proof.
  revert r w. induction cs as [| c cs IH]; intros r w Hok Hsteps;
    cbn [ExecResource.steps] in Hsteps.
  - by simplify_eq.
  - destruct (ExecResource.step c (r, w)) as [[r1 w1] |] eqn:Hstep; [| done].
    eapply IH; [| exact Hsteps]. eapply step_ok; eauto.
Qed.

(** C3: a resource whose capacity is the integer [capacity] and whose
    in-use counter is in [0, max(capacity, 0)] keeps it there through any
    sequence of [reserve] entries, wake-ups and timeouts of suspended
    [reserve] calls, and [release] calls.  On the way, [reserve] adds one
    exactly when the counter is below the capacity (never when the
    capacity is negative), and [release] takes one off, stopping at 0. *)
Theorem resource_in_range (r : ExecResource.t) :
  ExecResource.avail r = PyInt capacity →
  ExecResource.in_range capacity r →
  (∀ cs w r' w',
     ExecResource.steps cs (r, w) = Some (r', w') →
     ExecResource.in_range capacity r')
  ∧ (∀ blocking,
       ExecResource.used (fst (ExecResource.reserve_enter blocking r))
       = if (ExecResource.used r <? capacity)%Z
         then ExecResource.used r + 1 else ExecResource.used r)%Z
  ∧ (ExecResource.used (fst (ExecResource.reserve_wake r))
     = if (ExecResource.used r <? capacity)%Z
       then ExecResource.used r + 1 else ExecResource.used r)%Z
  ∧ ExecResource.used (fst (ExecResource.reserve_timed_out r)) = ExecResource.used r
  ∧ ExecResource.used (ExecResource.release r) = Z.max 0 (ExecResource.used r - 1).
Proof.
  intros Ha Hr. split; [| split; [| split; [| split]]].
  - intros cs w r' w' Hsteps.
    by destruct (steps_ok cs r r' w w' (conj Ha Hr) Hsteps).
  - intros blocking. destruct (reserve_enter_used blocking r Ha) as [-> _].
    unfold ExecResource.in_range in Hr.
    destruct (Z.ltb_spec (ExecResource.used r) capacity),
      (Z.leb_spec 0 capacity); simpl; lia.
  - by destruct (reserve_wake_used r Ha) as [-> _].
  - reflexivity.
  - destruct (release_used r Ha) as [-> _].
    unfold ExecResource.in_range in Hr.
    destruct (Z.ltb_spec capacity 0); lia.
Qed.

End ResourceRange.

Lemma resource_in_range_witness :
  let r := ExecResource.init "000000000000000000000000000000f1" "db" 1 60 in
  ∃ r' w',
    ExecResource.steps
      [ExecResource.Reserve true; ExecResource.Reserve true; ExecResource.TimedOut;
       ExecResource.Release; ExecResource.Release] (r, 0) = Some (r', w')
    ∧ ExecResource.in_range 1 r'.
Proof.
  intros r.
  exists (ExecResource.mk "db" "000000000000000000000000000000f1" (PyInt 1) 0 true 60), 0.
  split; [reflexivity |].
  apply (proj1 (resource_in_range 1 r eq_refl
                  (conj (Z.le_refl 0) (Z.le_0_1 : (0 ≤ Z.max 1 0)%Z)))
           [ExecResource.Reserve true; ExecResource.Reserve true;
            ExecResource.TimedOut; ExecResource.Release; ExecResource.Release]
           0 _ 0).
  reflexivity.
Defined.

(** ** The document of a tree read back *)

Lemma is_ok_rbind_false {A B} (m : result A) (k : A → result B) :
  (∀ a, is_ok (k a) = false) → is_ok (rbind m k) = false.
Proof. intros H. destruct m; simpl; [apply H | reflexivity]. Qed.

(** A loop that raises at one element and passes exceptions on raises. *)
Lemma foldl_raise {A B} (step : result A → B → result A) (l : list B) (x : B)
    (init : result A) :
  x ∈ l → (∀ acc, is_ok (step acc x) = false) →
  (∀ acc y, is_ok acc = false → is_ok (step acc y) = false) →
  is_ok (foldl step init l) = false.
Proof.
  intros Hx Hraise Hkeep. revert init.
  induction l as [| y l IH]; intros init; [by apply elem_of_nil in Hx |].
  apply elem_of_cons in Hx as [<- | Hx]; simpl.
  - generalize (Hraise init). generalize (step init x). clear -Hkeep.
    induction l as [| z l IH]; intros acc Hacc; simpl; [done |].
    apply IH. by apply Hkeep.
  - by apply IH.
Qed.

(** A [legendItem] element as [xml()] writes it, with the entry's key as
    the name of its only attribute, makes [__init__] raise: the reader asks
    for the two attributes [name] and [value]. *)
Lemma of_xml_legend_item f (xml : Element) (kv : string * string) :
  ExecTree.legend_item kv ∈ children xml →
  is_ok (ExecTree.of_xml f xml) = false.
Proof.
  intros Hin. destruct xml as [tg attrs cs]. simpl in Hin.
  cbn [ExecTree.of_xml].
  case_match; [done |].
  apply is_ok_rbind_false; intros version.
  case_match; [done |].
  apply is_ok_rbind_false; intros hex.
  apply is_ok_rbind_false; intros uuidi.
  apply is_ok_rbind_false; intros resources.
  apply is_ok_rbind_false; intros subtrees.
  apply is_ok_rbind_false; intros jobs.
  apply is_ok_rbind_false; intros self2.
  match goal with
  | |- is_ok (rbind ?m _) = false => assert (is_ok m = false) as Hm
  end.
  { eapply (foldl_raise _ _ (ExecTree.legend_item kv)).
    - unfold findall. apply list_elem_of_filter. split; [reflexivity | exact Hin].
    - intros acc. destruct acc as [acc |]; simpl; [| done].
      destruct kv as [k v]. unfold attrib_item, ExecTree.legend_item. simpl.
      destruct (decide (k = "name")) as [-> | Hk]; simpl; done.
    - intros acc y Hacc. destruct acc; simpl in *; done. }
  destruct (foldl _ _ _); simpl in *; done.
Qed.

Lemma xml_legend_children (t : ExecTree.t) (kv : string * string) :
  kv ∈ ExecTree.legend t → ExecTree.legend_item kv ∈ children (ExecTree.xml t).
Proof.
  intros Hkv. destruct t. cbn [ExecTree.xml children ExecTree.legend] in *.
  rewrite !elem_of_app. right. right. right.
  apply list_elem_of_fmap. eauto.
Qed.

(** C5 does not hold of the code: for every tree with at least one legend
    entry, reading back the document that [xml()] writes raises an
    exception, so no tree, equal or not, comes back. *)
Theorem legend_not_read_back f (t : ExecTree.t) :
  ExecTree.legend t ≠ [] →
  is_ok (ExecTree.of_xml f (ExecTree.xml t)) = false.
Proof.
  intros Hne. destruct (ExecTree.legend t) as [| kv l] eqn:Hl; [done |].
  apply (of_xml_legend_item f _ kv), xml_legend_children.
  rewrite Hl. apply elem_of_cons. by left.
Qed.

Lemma legend_not_read_back_witness :
  ExecTree.legend Examples.legend_tree ≠ []
  ∧ is_ok (ExecTree.of_xml (λ _ _, None) (ExecTree.xml Examples.legend_tree))
    = false.
Proof.
  split; [discriminate |].
  apply (legend_not_read_back (λ _ _, None) Examples.legend_tree). discriminate.
Defined.

(** On [legend_tree] the exception is the [KeyError] of
    [legenditem.attrib["name"]]. *)
Lemma legend_tree_raises_KeyError f :
  ExecTree.of_xml f (ExecTree.xml Examples.legend_tree) = Raise KeyError.
Proof. reflexivity. Qed.

(** Without a legend the document is read, but a capacity comes back as
    the text of its attribute: [avail] 5 is written as ["5"] and kept as
    the string. *)
Lemma resource_avail_read_back_as_text f :
  ExecResource.avail <$> ExecTree.resources Examples.resource_tree = [PyInt 5]
  ∧ ∃ t, ExecTree.of_xml f (ExecTree.xml Examples.resource_tree) = Ok t
         ∧ ExecResource.avail <$> ExecTree.resources t = [PyStr "5"].
Proof. split; [reflexivity |]. eexists. split; reflexivity. Qed.

(** ** ExecTree.validate on a dependency cycle *)

Section NoCycles.
Variable t : ExecTree.t.

Lemma py_remove_last (j : nat) (P : list nat) :
  j ∉ P → ExecTree.py_remove j (P ++ [j]) = P.
Proof.
  induction P as [| y P IH]; intros Hj; simpl.
  - by rewrite decide_True.
  - rewrite decide_False by (intros ->; apply Hj; left).
    f_equal. apply IH. intros H. apply Hj. by right.
Qed.

Lemma visit_children_parents rec j cs v p v' p' :
  ExecTree.restores rec →
  ExecTree.visit_children rec j cs v p = Some (true, v', p') →
  p' = ExecTree.py_remove j p.
Proof.
  intros Hrec. revert v p. induction cs as [| c cs IH]; intros v p H; simpl in H.
  - by simplify_eq.
  - destruct (rec c v p) as [[[[] v1] p1] |] eqn:Hc; simplify_eq.
    apply Hrec in Hc as ->. by eapply IH.
Qed.

Lemma validate_nocycles_restores fuel : ExecTree.restores (ExecTree.validate_nocycles fuel t).
Proof.
  induction fuel as [| fuel IH]; intros j v p v' p' H; simpl in H; [done |].
  unfold py_in in H. case_bool_decide as Hin; [done |].
  apply (visit_children_parents _ _ _ _ _ _ _ IH) in H as ->.
  by apply py_remove_last.
Qed.

Lemma visit_children_each rec j cs v p v' p' :
  ExecTree.restores rec →
  ExecTree.visit_children rec j cs v p = Some (true, v', p') →
  ∀ c, c ∈ cs → ∃ vc vc', rec c vc p = Some (true, vc', p).
Proof.
  intros Hrec. revert v. induction cs as [| c0 cs IH]; intros v H c Hc; simpl in H.
  - by apply elem_of_nil in Hc.
  - destruct (rec c0 v p) as [[[[] v1] p1] |] eqn:Hc0; simplify_eq.
    pose proof (Hrec _ _ _ _ _ Hc0) as ->.
    apply elem_of_cons in Hc as [-> | Hc]; [eauto |].
    by eapply IH.
Qed.





End NoCycles.


Section ValidateCycle.
Variables path_exists access_x : string → bool.
Variable t : ExecTree.t.
Variables a b : nat.
Variables ja jb : ExecJob.t.
Hypothesis Hab : a ≠ b.
Hypothesis Ha : ExecTree.jobs t !! a = Some ja.
Hypothesis Hb : ExecTree.jobs t !! b = Some jb.
Hypothesis Hda : ExecJob.is_defined ja = true.
Hypothesis Hdb : ExecJob.is_defined jb = true.
Hypothesis Hchild_ab : b ∈ ExecJob.children (ExecTree.deps t) a.
Hypothesis Hchild_ba : a ∈ ExecJob.children (ExecTree.deps t) b.





Hypothesis Htwo : length (ExecTree.jobs t) = 2.






Hypothesis Hsa : ExecJob.subtree ja = None.
Hypothesis Hsb : ExecJob.subtree jb = None.
Hypothesis Hdeps : ∀ d, d ∈ ExecTree.deps t → ExecDependency.parent d < 2.






Lemma validate_S fuel (tr : ExecTree.t) :
  ExecTree.validate path_exists access_x (S fuel) tr
  = match ExecTree.stems fuel tr with
    | None => None
    | Some stems =>
        match ExecTree.collect (ExecTree.validate_stem fuel tr) stems with
        | None => None
        | Some errors1 =>
            match ExecTree.job_errors path_exists access_x
                    (ExecTree.validate path_exists access_x fuel) tr with
            | None => None
            | Some errors2 =>
                Some ((if bool_decide (length stems = 0)
                       then [ExecJob.TreeEmpty (ExecTree.name tr)]
                       else if bool_decide (1 < length stems)
                            then [ExecJob.MultipleStems (ExecTree.name tr)
                                    (ExecTree.job_names tr stems)]
                            else [])
                      ++ errors1 ++ errors2 ++ ExecTree.iterator_errors tr)
            end
        end
    end.
Proof. reflexivity. Qed.


End ValidateCycle.

(** [cyclic_pair] is what two calls of [add_dep] make of the tree with the
    jobs A and B. *)
Lemma cyclic_pair_built :
  (r1 ←! ExecTree.add_dep
           (Examples.tree_of (ExecTree.jobs Examples.cyclic_pair) [] [])
           (ExecTree.JobObj 0) (ExecTree.JobObj 1) (state_code STATE_SUCCESSFULL);
   r2 ←! ExecTree.add_dep (fst r1) (ExecTree.JobKey "B") (ExecTree.JobKey "A")
           (state_code STATE_SUCCESSFULL);
   Ok (ExecTree.deps (fst r2)))
  = Ok (ExecTree.deps Examples.cyclic_pair).
Proof. reflexivity. Qed.


(** ** ExecJob._run and the dependencies of the job *)

Lemma release_resources_same tr rs :
  ExecTree.deps (Engine._release_resources tr rs) = ExecTree.deps tr
  ∧ ExecTree.jobs (Engine._release_resources tr rs) = ExecTree.jobs tr.
Proof.
  unfold Engine._release_resources. revert tr.
  induction rs as [| r rs IH]; intros tr; simpl; [done |].
  destruct (ExecTree.resources tr !! r) as [res |]; [| apply IH].
  destruct (IH (Engine.put_resource tr r (ExecResource.release res))) as [-> ->]. done.
Qed.

(** A Engine.step of the greenlet of the job at [j] leaves the dependencies alone
    and replaces at most the job at [j]. *)
Lemma task_step_frame c j p tr p' tr' :
  Engine.task_step c j p tr = Some (p', tr') →
  ExecTree.deps tr' = ExecTree.deps tr
  ∧ (ExecTree.jobs tr' = ExecTree.jobs tr
     ∨ ∃ job', ExecTree.jobs tr' = <[j := job']> (ExecTree.jobs tr)).
Proof.
  unfold Engine.task_step, Engine.acquire_failed, Engine.acquired. intros H.
  destruct (ExecTree.jobs tr !! j) as [job |] eqn:Hjob; simpl in H; [| done].
  destruct p as [| [| dep ds] | [| r todo] reserved attempt | r todo reserved attempt
                 | reserved attempt | | ret |], c; simplify_eq; try done.
  all: try (destruct (ExecTree.resources tr !! r) as [res |]; simpl in H; [| done]).
  all: repeat (case_match; simplify_eq; simpl in * ); try done.
  all: simplify_eq/=.
  all: rewrite ?(proj1 (release_resources_same _ _)),
         ?(proj2 (release_resources_same _ _)); simpl.
  all: split; [done |]; eauto.
Qed.

(** While a greenlet still waits for a dependency it changes nothing. *)
Lemma task_step_waiting c j p tr p' tr' all :
  Engine.task_step c j p tr = Some (p', tr') →
  Engine.waiting_on p all ≠ [] → tr' = tr.
Proof.
  unfold Engine.task_step. intros H Hw.
  destruct (ExecTree.jobs tr !! j) as [job |] eqn:Hjob; simpl in H; [| done].
  destruct p as [| [| dep ds] | | | | | |], c; simplify_eq; try done.
  by case_match; simplify_eq.
Qed.

(** A dependency leaves the waiting list of a greenlet only when its event
    is set. *)
Lemma task_step_waits c j p tr p' tr' dep :
  Engine.task_step c j p tr = Some (p', tr') →
  dep ∈ Engine.waiting_on p (ExecJob.parent_deps (ExecTree.deps tr) j) →
  dep ∈ Engine.waiting_on p' (ExecJob.parent_deps (ExecTree.deps tr) j)
  ∨ Engine.dep_ready tr dep = true.
Proof.
  unfold Engine.task_step. intros H Hdep.
  destruct (ExecTree.jobs tr !! j) as [job |] eqn:Hjob; simpl in H; [| done].
  destruct p as [| [| d ds] | | | | | |]; simpl in Hdep;
    try (by apply elem_of_nil in Hdep).
  - destruct c; simplify_eq. by left.
  - destruct c; simplify_eq.
    destruct (Engine.dep_ready tr d) eqn:Hd; simplify_eq.
    apply elem_of_cons in Hdep as [-> | Hdep]; [by right | by left].
Qed.

Lemma step_deps l s s' :
  Engine.step l s = Some s' → ExecTree.deps (Engine.tree s') = ExecTree.deps (Engine.tree s).
Proof.
  unfold Engine.step, Engine.start. intros H.
  destruct l as [j | j | j | j v | i c]; simpl in H.
  - destruct (ExecTree.jobs (Engine.tree s) !! j); simpl in H; [| done].
    repeat (case_match; simplify_eq); done.
  - destruct (ExecTree.jobs (Engine.tree s) !! j); simplify_eq/=; done.
  - destruct (ExecTree.jobs (Engine.tree s) !! j); simplify_eq/=; done.
  - destruct (ExecTree.jobs (Engine.tree s) !! j); simpl in H; [| done].
    case_match; simplify_eq; done.
  - destruct (Engine.tasks s !! i) as [t |]; simpl in H; [| done].
    destruct (Engine.task_step c (Engine.tjob t) (Engine.tpc t) (Engine.tree s)) as [[p' tr'] |] eqn:Hts;
      simplify_eq/=.
    by apply task_step_frame in Hts as [-> _].
Qed.

Lemma set_state_state job st : ExecJob.state (ExecJob.set_state job st) = st.
Proof. unfold ExecJob.set_state. by case_decide. Qed.

Lemma set_event_state job st : ExecJob.state (ExecJob.set_event job st) = ExecJob.state job.
Proof. reflexivity. Qed.

Lemma put_job_state tr j job j' :
  ExecJob.state <$> ExecTree.jobs (Engine.put_job tr j job) !! j'
  = if decide (j = j' ∧ j < length (ExecTree.jobs tr))
    then Some (ExecJob.state job)
    else ExecJob.state <$> ExecTree.jobs tr !! j'.
Proof.
  unfold Engine.put_job. simpl. case_decide as H.
  - destruct H as [-> H]. by rewrite list_lookup_insert_eq.
  - destruct (decide (j = j')) as [-> | Hne].
    + rewrite list_insert_ge by lia. done.
    + by rewrite list_lookup_insert_ne.
Qed.

(** Only a greenlet of the job, past its waits, moves a job into RUNNING. *)
Lemma step_enters_running l s s' j :
  Engine.step l s = Some s' → Engine.enters_running s s' j →
  ∃ i t c, l = Engine.LStep i c ∧ Engine.tasks s !! i = Some t ∧ Engine.tjob t = j
           ∧ Engine.waiting_on (Engine.tpc t) (Engine.inbound s j) = [].
Proof.
  unfold Engine.enters_running, Engine.job_state. intros H [Hpre Hpost].
  assert (∀ tr j0 job job' tks,
            ExecTree.jobs tr !! j0 = Some job →
            ExecJob.state job' ≠ STATE_RUNNING ∨ ExecJob.state job' = ExecJob.state job →
            ExecJob.state <$> ExecTree.jobs tr !! j ≠ Some STATE_RUNNING →
            ExecJob.state <$> ExecTree.jobs (Engine.tree (Engine.mkSys (Engine.put_job tr j0 job') tks)) !! j
            ≠ Some STATE_RUNNING) as Hput.
  { intros tr j0 job job' tks Hjob Hst Hp. cbn [Engine.tree]. rewrite put_job_state.
    case_decide as Hd; [| done]. destruct Hd as [-> _].
    rewrite Hjob in Hp. simpl in Hp. destruct Hst as [? | Heq]; congruence. }
  destruct l as [j0 | j0 | j0 | j0 v | i c]; cbn [Engine.step] in H.
  - exfalso. unfold Engine.start in H.
    destruct (ExecTree.jobs (Engine.tree s) !! j0) as [job |] eqn:Hjob; simpl in H; [| done].
    repeat (case_match; simplify_eq); try done.
    revert Hpost. eapply Hput; eauto.
  - exfalso.
    destruct (ExecTree.jobs (Engine.tree s) !! j0) as [job |] eqn:Hjob; simpl in H; [| done].
    simplify_eq. revert Hpost. eapply Hput; eauto.
    unfold ExecJob.cancel. repeat case_match; simpl; auto.
    left. by rewrite set_state_state.
  - exfalso.
    destruct (ExecTree.jobs (Engine.tree s) !! j0) as [job |] eqn:Hjob; simpl in H; [| done].
    simplify_eq. revert Hpost. eapply Hput; eauto.
    unfold ExecJob.reset. case_match; auto.
    left. by rewrite set_state_state.
  - exfalso.
    destruct (ExecTree.jobs (Engine.tree s) !! j0) as [job |] eqn:Hjob; simpl in H; [| done].
    destruct (ExecJob.set_jobpath job v) as [job' |] eqn:Hset; simplify_eq; try done.
    revert Hpost. eapply Hput; eauto.
    unfold ExecJob.set_jobpath in Hset.
    repeat (case_match; simplify_eq); auto.
    left. by rewrite set_state_state.
  - destruct (Engine.tasks s !! i) as [t |] eqn:Ht; simpl in H; [| done].
    destruct (Engine.task_step c (Engine.tjob t) (Engine.tpc t) (Engine.tree s)) as [[p' tr'] |] eqn:Hts;
      simplify_eq/=.
    exists i, t, c.
    destruct (task_step_frame _ _ _ _ _ _ Hts) as [Hdeps [Hjobs | [job' Hjobs]]].
    { rewrite Hjobs in Hpost. done. }
    assert (Engine.tjob t = j) as Hj.
    { destruct (decide (Engine.tjob t = j)) as [| Hne]; [done |].
      rewrite Hjobs, list_lookup_insert_ne in Hpost by done. done. }
    repeat split; try done.
    destruct (Engine.waiting_on (Engine.tpc t) (Engine.inbound s j)) as [| d ds] eqn:Hw; [done |].
    rewrite (task_step_waiting _ _ _ _ _ _ (Engine.inbound s j) Hts) in Hpost; [done |].
    by rewrite Hw.
Qed.

(** [dep.wait()] returns only when the flag of [dep.state] in the events
    of the parent job is set. *)
Lemma dep_ready_event tr dep :
  Engine.dep_ready tr dep = true →
  ∃ parent,
    ExecTree.jobs tr !! ExecDependency.parent dep = Some parent
    ∧ ExecJob.events parent (ExecDependency.state dep) = true.
Proof.
  unfold Engine.dep_ready. intros H.
  destruct (ExecTree.jobs tr !! ExecDependency.parent dep) as [parent |]; [| done].
  by exists parent.
Qed.

Lemma seen_mono past s dep : Engine.seen past dep → Engine.seen (past ++ [s]) dep.
Proof. intros (si & Hin & Hev). exists si. split; [| done]. apply elem_of_app. by left. Qed.

Lemma waits_done_tasks past s s' :
  ExecTree.deps (Engine.tree s') = ExecTree.deps (Engine.tree s) → Engine.tasks s' = Engine.tasks s →
  Engine.waits_done past s → Engine.waits_done (past ++ [s]) s'.
Proof.
  unfold Engine.waits_done, Engine.inbound. intros Hdeps Htasks Hinv i t dep Ht Hdep.
  rewrite Hdeps, Htasks in *.
  destruct (Hinv i t dep Ht Hdep) as [? | ?]; [by left | right; by apply seen_mono].
Qed.

(** A Engine.step keeps [Engine.waits_done], the state it leaves joining the past. *)
Lemma step_waits_done past l s s' :
  Engine.step l s = Some s' → Engine.waits_done past s → Engine.waits_done (past ++ [s]) s'.
Proof.
  intros H Hinv. pose proof (step_deps _ _ _ H) as Hdeps.
  destruct l as [j0 | j0 | j0 | j0 v | i0 c]; cbn [Engine.step] in H.
  - unfold Engine.start in H.
    destruct (ExecTree.jobs (Engine.tree s) !! j0) as [job |] eqn:Hjob; simpl in H; [| done].
    repeat (case_match; simplify_eq); try (by apply waits_done_tasks).
    unfold Engine.waits_done, Engine.inbound in *. cbn [Engine.tree Engine.tasks] in *.
    intros i t dep Ht Hdep.
    apply lookup_app_Some in Ht as [Ht | [_ Ht]].
    + destruct (Hinv i t dep Ht Hdep) as [? | ?]; [by left | right; by apply seen_mono].
    + apply list_lookup_singleton_Some in Ht as [_ <-]. by left.
  - destruct (ExecTree.jobs (Engine.tree s) !! j0); simplify_eq/=. by apply waits_done_tasks.
  - destruct (ExecTree.jobs (Engine.tree s) !! j0); simplify_eq/=. by apply waits_done_tasks.
  - destruct (ExecTree.jobs (Engine.tree s) !! j0); simpl in H; [| done].
    case_match; simplify_eq; by apply waits_done_tasks.
  - destruct (Engine.tasks s !! i0) as [t0 |] eqn:Ht0; simpl in H; [| done].
    destruct (Engine.task_step c (Engine.tjob t0) (Engine.tpc t0) (Engine.tree s)) as [[p' tr'] |] eqn:Hts;
      simplify_eq/=.
    unfold Engine.waits_done, Engine.inbound in *. cbn [Engine.tree Engine.tasks] in *. rewrite Hdeps.
    intros i t dep Ht Hdep.
    destruct (decide (i0 = i)) as [-> | Hne].
    + rewrite list_lookup_insert_eq in Ht by (by eapply lookup_lt_Some).
      simplify_eq. cbn [Engine.tjob Engine.tpc] in *.
      destruct (Hinv i t0 dep Ht0 Hdep) as [Hw | Hs]; [| right; by apply seen_mono].
      destruct (task_step_waits _ _ _ _ _ _ dep Hts Hw) as [? | Hready]; [by left |].
      right. exists s. split; [| by apply dep_ready_event].
      apply elem_of_app. right. by apply list_elem_of_singleton.
    + rewrite list_lookup_insert_ne in Ht by done.
      destruct (Hinv i t dep Ht Hdep) as [? | ?]; [by left | right; by apply seen_mono].
Qed.

Lemma run_head ls s tr : Engine.run ls s = Some tr → tr !! 0 = Some s.
Proof.
  destruct ls as [| l ls]; simpl; intros H; [by simplify_eq |].
  destruct (Engine.step l s) as [s' |]; simpl in H; [| done].
  destruct (Engine.run ls s') as [tr' |]; simplify_eq/=. done.
Qed.

Lemma run_enters_running ls s tr past k s1 s2 j dep :
  Engine.waits_done past s → Engine.run ls s = Some tr →
  tr !! k = Some s1 → tr !! S k = Some s2 →
  Engine.enters_running s1 s2 j → dep ∈ Engine.inbound s j →
  Engine.seen (past ++ take k tr) dep.
Proof.
  revert s tr past k. induction ls as [| l ls IH]; intros s tr past k Hinv Hrun Hk HSk Hent Hdep.
  - simpl in Hrun. by simplify_eq.
  - simpl in Hrun.
    destruct (Engine.step l s) as [s' |] eqn:Hstep; simpl in Hrun; [| done].
    destruct (Engine.run ls s') as [tr' |] eqn:Hrun'; simplify_eq/=.
    destruct k as [| k]; simpl in *.
    + simplify_eq. rewrite (run_head _ _ _ Hrun') in HSk. simplify_eq.
      destruct (step_enters_running _ _ _ _ Hstep Hent) as (i & t & c & -> & Ht & <- & Hw).
      destruct (Hinv i t dep Ht Hdep) as [Hin | Hs].
      * rewrite Hw in Hin. by apply elem_of_nil in Hin.
      * by rewrite app_nil_r.
    + specialize (IH s' tr' (past ++ [s]) k (step_waits_done _ _ _ _ Hstep Hinv) Hrun' Hk HSk Hent).
      rewrite <- app_assoc in IH. apply IH.
      unfold Engine.inbound in *. by rewrite (step_deps _ _ _ Hstep).
Qed.

(** C1: along every schedule of a tree that starts without greenlets,
    when a step moves the job at [j] into RUNNING, every inbound dependency
    [(parent, j, required-state)] of the job has had the flag of
    [required-state] set in the [events] of its parent job, in a state the
    schedule went through before that step. *)
Theorem running_after_dependencies (s0 : Engine.sys) (ls : list Engine.label) (tr : list Engine.sys)
    (k : nat) (s s' : Engine.sys) (j : nat) (dep : ExecDependency.t) :
  Engine.tasks s0 = [] →
  Engine.run ls s0 = Some tr →
  tr !! k = Some s → tr !! S k = Some s' →
  Engine.enters_running s s' j →
  dep ∈ Engine.inbound s0 j →
  ∃ i si parent,
    i < k ∧ tr !! i = Some si
    ∧ ExecTree.jobs (Engine.tree si) !! ExecDependency.parent dep = Some parent
    ∧ ExecJob.events parent (ExecDependency.state dep) = true.
Proof.
  intros Htasks Hrun Hk HSk Hent Hdep.
  assert (Engine.waits_done [] s0) as Hinv.
  { intros i t d Ht. rewrite Htasks in Ht. done. }
  destruct (run_enters_running ls s0 tr [] k s s' j dep Hinv Hrun Hk HSk Hent Hdep)
    as (si & Hin & parent & Hparent & Hev).
  simpl in Hin. apply list_elem_of_lookup in Hin as [i Hi].
  apply lookup_take_Some in Hi as [Hi Hlt].
  by exists i, si, parent.
Qed.

Lemma running_after_dependencies_witness :
  Engine.run Examples.chain_schedule Examples.chain = Some Examples.chain_trace
  ∧ Engine.enters_running Examples.chain_before Examples.chain_after 1
  ∧ ∃ i si parent,
      i < 7 ∧ Examples.chain_trace !! i = Some si
      ∧ ExecTree.jobs (Engine.tree si) !! 0 = Some parent
      ∧ ExecJob.events parent STATE_SUCCESSFULL = true.
Proof.
  assert (Engine.enters_running Examples.chain_before Examples.chain_after 1) as Hent
    by (split; [discriminate | reflexivity]).
  split; [reflexivity |]. split; [exact Hent |].
  apply (running_after_dependencies Examples.chain Examples.chain_schedule
           Examples.chain_trace 7 Examples.chain_before Examples.chain_after 1
           (Examples.dep 0 1)).
  - reflexivity.
  - reflexivity.
  - reflexivity.
  - reflexivity.
  - exact Hent.
  - apply list_elem_of_here.
Defined.

(** ** ExecJob._acquire_resources retried *)

(** C2 does not hold of the code: [reserved] is not emptied between the
    passes of [_acquire_resources], so a failed pass releases again what
    the failed passes before it had reserved and released.  In
    [retry_schedule], J starts acquiring (position 12) with [cpu] in use
    once, by K; its second failed pass releases [cpu] twice and takes the
    counter to 0; J then runs and ends SUCCESSFUL with the counter at 0,
    while K, which has not moved, is still in its runner and holds [cpu]. *)
Lemma acquire_retry_releases_twice :
  Engine.run Examples.retry_schedule Examples.contention = Some Examples.retry_trace
  ∧ (λ s, (Engine.job_state s 2, Engine.used s 0)) <$> drop 12 Examples.retry_trace
    = [(Some STATE_IDLE, Some 1%Z); (Some STATE_BLOCKED, Some 1%Z);
       (Some STATE_BLOCKED, Some 2%Z); (Some STATE_BLOCKED, Some 2%Z);
       (Some STATE_BLOCKED, Some 1%Z); (Some STATE_BLOCKED, Some 1%Z);
       (Some STATE_BLOCKED, Some 2%Z); (Some STATE_BLOCKED, Some 2%Z);
       (Some STATE_BLOCKED, Some 0%Z); (Some STATE_BLOCKED, Some 0%Z);
       (Some STATE_BLOCKED, Some 0%Z); (Some STATE_BLOCKED, Some 1%Z);
       (Some STATE_BLOCKED, Some 1%Z); (Some STATE_RUNNING, Some 1%Z);
       (Some STATE_SUCCESSFULL, Some 0%Z)]
  ∧ (λ s, Engine.tpc <$> Engine.tasks s !! 0) <$> drop 12 Examples.retry_trace
    = replicate 15 (Some Engine.PRunning).
Proof. repeat split. Qed.


(** * Further properties *)

(** ** ExecIter *)

Lemma increments_run (n : nat) (it : ExecIter.t) :
  ExecIter.run (ExecIter.increments n it) = (ExecIter.run it + Z.of_nat n)%Z
  ∧ ExecIter.args (ExecIter.increments n it) = ExecIter.args it.
Proof.
  induction n as [| n [IHr IHa]]; cbn [ExecIter.increments].
  - split; [lia | done].
  - unfold ExecIter.increment. simpl. rewrite IHr, IHa. split; [lia | done].
Qed.

(** X1: a new iterator that has been advanced [k] times, [k] below the
    number of arguments, gives [args[k]] and is not exhausted; [increment]
    returns whether the iterator is still not exhausted; and after
    [len(args)] advances the iterator is exhausted. *)
Theorem iterator_visits_args (name : option string) (args : list string)
    (k : nat) (x : string) :
  args !! k = Some x →
  ExecIter.argument (ExecIter.increments k (ExecIter.init name args)) = Ok x
  ∧ ExecIter.is_exhausted (ExecIter.increments k (ExecIter.init name args)) = false
  ∧ (∀ it inc, snd (ExecIter.increment it inc)
               = negb (ExecIter.is_exhausted (fst (ExecIter.increment it inc))))
  ∧ ExecIter.is_exhausted
      (ExecIter.increments (length args) (ExecIter.init name args)) = true.
Proof.
  intros Hk. pose proof (lookup_lt_Some _ _ _ Hk) as Hlt.
  destruct (increments_run k (ExecIter.init name args)) as [Hr Ha].
  destruct (increments_run (length args) (ExecIter.init name args)) as [Hr' Ha'].
  simpl in *. split; [| split; [| split]].
  - apply (argument_in_range _ k); [rewrite Hr; lia | by rewrite Ha].
  - unfold ExecIter.is_exhausted, ExecIter.len. rewrite Hr, Ha. lia.
  - intros it inc. unfold ExecIter.increment, ExecIter.is_exhausted. simpl.
    destruct (Z.ltb_spec (ExecIter.run it + inc) (ExecIter.len it)),
      (Z.leb_spec (ExecIter.len it) (ExecIter.run it + inc));
      unfold ExecIter.len in *; simpl in *; try lia; done.
  - unfold ExecIter.is_exhausted, ExecIter.len. rewrite Hr', Ha'. lia.
Qed.

Lemma iterator_visits_args_witness :
  ["x"; "y"; "z"] !! 1 = Some "y"
  ∧ ExecIter.argument (ExecIter.increments 1 (ExecIter.init None ["x"; "y"; "z"]))
    = Ok "y".
Proof.
  split; [reflexivity |].
  apply (proj1 (iterator_visits_args None ["x"; "y"; "z"] 1 "y" eq_refl)).
Defined.

(** ** ExecJob *)

Lemma set_state_events (j : ExecJob.t) (s : jstate) :
  ExecJob.events (ExecJob.set_state j s) (ExecJob.state (ExecJob.set_state j s)) = true
  ∨ (ExecJob.set_state j s = j).
Proof.
  unfold ExecJob.set_state. case_decide as Hd; [by right |].
  left. simpl. unfold ExecJob.set_flag. by rewrite decide_True.
Qed.

Lemma set_state_flagged j s : ExecJob.flagged j → ExecJob.flagged (ExecJob.set_state j s).
Proof.
  intros H. destruct (set_state_events j s) as [? | ->]; [by left | done].
Qed.

Lemma apply_flagged j c : ExecJob.flagged j → ExecJob.flagged (ExecJob.apply j c).
Proof.
  intros H. destruct c as [v | s | p | |]; simpl.
  - unfold ExecJob.set_progress. by case_match.
  - by apply set_state_flagged.
  - unfold ExecJob.set_jobpath. repeat (case_match; simplify_eq); try done.
    by apply (set_state_flagged (ExecJob.with_jobpath j p)).
  - unfold ExecJob.reset. case_bool_decide; [| done].
    right. by rewrite set_state_state.
  - unfold ExecJob.cancel. repeat (case_match; simpl); try done.
    by apply set_state_flagged.
Qed.

Lemma init_flagged_one_runner uuid4 name jobpath logfile mustcomplete subtree
    arguments resources href tcolor j0 :
  ExecJob.init uuid4 name jobpath logfile mustcomplete subtree arguments resources
    href tcolor = Ok j0 →
  ExecJob.flagged j0 ∧ ExecJob.one_runner j0.
Proof.
  unfold ExecJob.init, ExecJob.set_jobpath, ExecJob.one_runner, ExecJob.jobpath.
  intros H.
  destruct subtree as [st |], jobpath as [p |]; simpl in H;
    repeat (case_match; simplify_eq); simplify_eq; simpl.
  all: split; [| by auto].
  all: try (by left).
  all: apply (set_state_flagged (ExecJob.with_jobpath _ _)); by left.
Qed.

(** X2: a job made by the constructor has, after any sequence of setter
    calls, [reset()] and [cancel()], the event of its current state set,
    unless the state is RESET. *)
Theorem state_event_set uuid4 name jobpath logfile mustcomplete subtree arguments
    resources href tcolor (j0 : ExecJob.t) (calls : list ExecJob.call) :
  ExecJob.init uuid4 name jobpath logfile mustcomplete subtree arguments resources
    href tcolor = Ok j0 →
  ExecJob.flagged (foldl ExecJob.apply j0 calls).
Proof.
  intros Hinit. apply init_flagged_one_runner in Hinit as [H _].
  revert j0 H. induction calls as [| c calls IH]; intros j0 H; simpl; [done |].
  apply IH. by apply apply_flagged.
Qed.

Lemma state_event_set_witness :
  ExecJob.flagged
    (foldl ExecJob.apply (Examples.job Examples.uuid_a "A" "/bin/true" [])
       [ExecJob.SetState STATE_RUNNING; ExecJob.DoCancel;
        ExecJob.SetState STATE_FAILED; ExecJob.DoReset]).
Proof.
  apply (state_event_set Examples.uuid_a "A" (Some "/bin/true") None true None
           [] [] "" "lavender"). reflexivity.
Defined.

(** X3: [reset()] does nothing to an UNDEF job.  Any other job is in RESET
    afterwards with every other event cleared and a positive progress back
    at 0; the event of RESET itself is set when the job was in another
    state and is left cleared when the job was in RESET already. *)
Theorem reset_effect (j : ExecJob.t) :
  (ExecJob.state j = STATE_UNDEF → ExecJob.reset j = j)
  ∧ (ExecJob.state j ≠ STATE_UNDEF →
     ExecJob.state (ExecJob.reset j) = STATE_RESET
     ∧ (∀ s, s ≠ STATE_RESET → ExecJob.events (ExecJob.reset j) s = false)
     ∧ ExecJob.events (ExecJob.reset j) STATE_RESET
       = negb (bool_decide (ExecJob.state j = STATE_RESET))
     ∧ ExecJob.progress (ExecJob.reset j)
       = (if (0 <? ExecJob.progress j)%Z then 0%Z else ExecJob.progress j)
     ∧ ExecJob.jobpath (ExecJob.reset j) = ExecJob.jobpath j
     ∧ ExecJob.execcount (ExecJob.reset j) = ExecJob.execcount j
     ∧ ExecJob.failcount (ExecJob.reset j) = ExecJob.failcount j).
Proof.
  unfold ExecJob.reset. split.
  - intros ->. done.
  - intros Hne. rewrite bool_decide_eq_true_2 by done.
    rewrite set_state_state. split; [done |].
    cbn [ExecJob.progress ExecJob._progress ExecJob.with_state_events].
    unfold ExecJob.set_progress. simpl (_ && _).
    destruct (0 <? ExecJob._progress j)%Z eqn:Hp;
      unfold ExecJob.set_state, ExecJob.state, ExecJob.jobpath; simpl;
      case_decide as Hd; simpl.
    all: split; [intros s Hs; unfold ExecJob.set_flag; by rewrite ?decide_False |].
    all: split; [| unfold ExecJob.progress; by rewrite Hp].
    all: first [ by rewrite bool_decide_eq_true_2
               | rewrite bool_decide_eq_false_2 by done; unfold ExecJob.set_flag;
                 by rewrite decide_True ].
Qed.

Lemma reset_effect_witness :
  let j := ExecJob.set_state (Examples.job Examples.uuid_a "A" "/bin/true" [])
             STATE_FAILED in
  ExecJob.state (ExecJob.reset j) = STATE_RESET
  ∧ ExecJob.events (ExecJob.reset j) STATE_RESET = true
  ∧ ExecJob.events (ExecJob.reset (ExecJob.reset j)) STATE_RESET = false.
Proof.
  intros j. split; [| split].
  - apply (proj2 (reset_effect j)). discriminate.
  - apply (proj1 (proj2 (proj2 (proj2 (reset_effect j) ltac:(discriminate))))).
  - apply (proj1 (proj2 (proj2 (proj2 (reset_effect (ExecJob.reset j))
                                        ltac:(discriminate))))).
Defined.

(** X4: a second [cancel()] returns what the first returned and changes
    nothing more. *)
Theorem cancel_idempotent (j : ExecJob.t) :
  ExecJob.cancel (snd (ExecJob.cancel j)) = ExecJob.cancel j.
Proof.
  destruct j as [? ? st ? ? ? ? ? ? ? ? ? ? ? ? ? ?]. destruct st; reflexivity.
Qed.

(** X6: the [jobpath] setter succeeds exactly when the job is in a PRESTART
    state and is not given a path while it has a sub-tree; it then stores
    the value, and moves an IDLE job to UNDEF when the value is ["-"].
    Otherwise it raises [JobError]. *)
Theorem set_jobpath_spec (j : ExecJob.t) (v : option string) :
  match ExecJob.set_jobpath j v with
  | Ok j' =>
      (ExecJob.subtree j = None ∨ v = None)
      ∧ ExecJob.state j ∈ PRESTART_STATES
      ∧ ExecJob.jobpath j' = v
      ∧ ExecJob.subtree j' = ExecJob.subtree j
      ∧ ExecJob.state j'
        = (if bool_decide (v = Some UNDEF_JOB ∧ ExecJob.state j = STATE_IDLE)
           then STATE_UNDEF else ExecJob.state j)
  | Raise e =>
      e = JobError
      ∧ ¬ ((ExecJob.subtree j = None ∨ v = None)
           ∧ ExecJob.state j ∈ PRESTART_STATES)
  end.
Proof.
  unfold ExecJob.set_jobpath, py_in, ExecJob.jobpath.
  destruct (ExecJob.subtree j) as [st |] eqn:Hst, v as [p |]; simpl.
  all: try (split; [done |]; intuition congruence).
  all: case_bool_decide as Hpre; simpl; [| split; [done |]; intuition congruence].
  all: repeat case_bool_decide; simplify_eq/=.
  all: repeat split; auto; try (intuition congruence).
  all: rewrite ?set_state_state; try done.
  all: unfold ExecJob.set_state; case_decide; simpl; try done.
Qed.

Lemma apply_one_runner j c : ExecJob.one_runner j → ExecJob.one_runner (ExecJob.apply j c).
Proof.
  unfold ExecJob.one_runner, ExecJob.jobpath.
  intros H. destruct c as [v | s | p | |]; simpl.
  - unfold ExecJob.set_progress. by case_match.
  - unfold ExecJob.set_state. by case_decide.
  - unfold ExecJob.set_jobpath.
    destruct (ExecJob.subtree j) as [st |] eqn:Hst, p as [p |]; simpl; try done.
    all: destruct (py_in (ExecJob.state j) PRESTART_STATES); [| intuition congruence].
    all: try destruct (bool_decide (Some p = Some UNDEF_JOB) && _).
    all: unfold ExecJob.set_state; try case_decide; simpl; auto.
    rewrite Hst. intuition congruence.
  - unfold ExecJob.reset, ExecJob.set_state, ExecJob.set_progress.
    repeat (case_match; simpl); done.
  - unfold ExecJob.cancel, ExecJob.set_state. repeat (case_match; simpl); done.
Qed.

(** X5: a job made by the constructor never has both [jobpath] and
    [subtree] set, whatever setters, [reset()] and [cancel()] are called on
    it. *)
Theorem one_runner_kept uuid4 name jobpath logfile mustcomplete subtree arguments
    resources href tcolor (j0 : ExecJob.t) (calls : list ExecJob.call) :
  ExecJob.init uuid4 name jobpath logfile mustcomplete subtree arguments resources
    href tcolor = Ok j0 →
  ExecJob.one_runner (foldl ExecJob.apply j0 calls).
Proof.
  intros Hinit. apply init_flagged_one_runner in Hinit as [_ H].
  revert j0 H. induction calls as [| c calls IH]; intros j0 H; simpl; [done |].
  apply IH. by apply apply_one_runner.
Qed.

Lemma one_runner_kept_witness :
  ExecJob.one_runner
    (foldl ExecJob.apply (Examples.job Examples.uuid_a "A" "/bin/true" [])
       [ExecJob.SetJobpath None; ExecJob.SetJobpath (Some "-")]).
Proof.
  apply (one_runner_kept Examples.uuid_a "A" (Some "/bin/true") None true None
           [] [] "" "lavender"). reflexivity.
Defined.


(** ** A reservation given back *)

(** X22: on a resource of integer capacity whose counter is not negative,
    a [reserve] that returns True followed by [release] puts the counter
    back where it was and leaves the event set when the capacity is not
    negative; a non-blocking [reserve] that returns False has changed
    nothing, and it returns False exactly when the capacity is not
    negative and the counter has reached it. *)
Theorem reserve_release_round_trip (capacity : Z) (blocking : bool)
    (r : ExecResource.t) :
  ExecResource.avail r = PyInt capacity →
  (0 ≤ ExecResource.used r)%Z →
  (snd (ExecResource.reserve_enter blocking r) = Some true →
   ExecResource.used (ExecResource.release (fst (ExecResource.reserve_enter blocking r)))
   = ExecResource.used r
   ∧ ExecResource.event
       (ExecResource.release (fst (ExecResource.reserve_enter blocking r)))
     = (if (capacity <? 0)%Z then ExecResource.event r else true))
  ∧ (snd (ExecResource.reserve_enter false r) = Some false
     ↔ (0 ≤ capacity ≤ ExecResource.used r)%Z)
  ∧ (snd (ExecResource.reserve_enter false r) = Some false →
     fst (ExecResource.reserve_enter false r) = r).
Proof.
  intros Ha Hu. unfold ExecResource.reserve_enter, ExecResource.release, py_ge.
  rewrite Ha. simpl.
  destruct (Z.ltb_spec capacity 0) as [Hneg | Hpos]; simpl.
  - rewrite Ha. simpl. destruct (Z.ltb_spec capacity 0); [| lia]. simpl.
    split; [done |]. split; [| done]. split; [done | lia].
  - destruct (Z.ltb_spec (ExecResource.used r) capacity) as [Hlt | Hge]; simpl.
    + rewrite Ha. simpl. destruct (Z.ltb_spec capacity 0); [lia |]. simpl.
      split; [intros _; split; [lia | done] |].
      split; [| done]. split; [done | lia].
    + split; [by destruct blocking |]. split; [| done]. split; [lia | done].
Qed.

Lemma reserve_release_round_trip_witness :
  let r := ExecResource.init "000000000000000000000000000000f1" "db" 1 60 in
  ExecResource.used (ExecResource.release (fst (ExecResource.reserve_enter true r)))
  = 0%Z.
Proof.
  intros r.
  apply (proj1 (reserve_release_round_trip 1 true r eq_refl (Z.le_refl 0)) eq_refl).
Defined.


(** ** Parents, children and stems *)

(** X7: [b] is among the children of [a] exactly when [a] is among the
    parents of [b], and a job is an orphan exactly when it is the child of
    no job. *)
Theorem children_parents_dual (deps : list ExecDependency.t) (a b : nat) :
  (b ∈ ExecJob.children deps a ↔ a ∈ ExecJob.parents deps b)
  ∧ (ExecJob.orphan deps b = true ↔ ∀ x, b ∉ ExecJob.children deps x).
Proof.
  assert (∀ x y, y ∈ ExecJob.children deps x ↔ x ∈ ExecJob.parents deps y) as Hdual.
  { intros x y.
    unfold ExecJob.children, ExecJob.parents, ExecJob.child_deps, ExecJob.parent_deps.
    rewrite !list_elem_of_fmap. split.
    - intros (d & -> & Hd). apply list_elem_of_filter in Hd as [Hp Hd].
      exists d. split; [done |]. by apply list_elem_of_filter.
    - intros (d & -> & Hd). apply list_elem_of_filter in Hd as [Hc Hd].
      exists d. split; [done |]. by apply list_elem_of_filter. }
  split; [apply Hdual |].
  unfold ExecJob.orphan. rewrite bool_decide_eq_true. split.
  - intros Hnil x Hx. apply Hdual in Hx. unfold ExecJob.parents in Hx.
    rewrite Hnil in Hx. by apply elem_of_nil in Hx.
  - intros Hno. destruct (ExecJob.parent_deps deps b) as [| d ds] eqn:Hpd; [done |].
    exfalso. apply (Hno (ExecDependency.parent d)), Hdual.
    unfold ExecJob.parents. rewrite Hpd. apply list_elem_of_here.
Qed.

Lemma any_parent_false rec (jobs : list ExecJob.t) (ps : list nat) :
  ExecJob.any_parent rec jobs ps = Some false →
  ∀ p, p ∈ ps →
    ∃ pj, jobs !! p = Some pj ∧ ExecJob.is_defined pj = false ∧ rec p = Some false.
Proof.
  induction ps as [| q ps IH]; simpl; intros H p Hp; [by apply elem_of_nil in Hp |].
  destruct (jobs !! q) as [qj |] eqn:Hq; [| done].
  destruct (ExecJob.is_defined qj) eqn:Hd; [done |].
  destruct (rec q) as [[] |] eqn:Hr; try done.
  apply elem_of_cons in Hp as [-> | Hp]; eauto.
Qed.

Lemma stems_from_spec fuel (t : ExecTree.t) (i : nat) (js : list ExecJob.t)
    (ss : list nat) :
  ExecTree.stems_from fuel t i js = Some ss →
  ∀ k, k ∈ ss ↔
       i ≤ k
       ∧ ∃ job, js !! (k - i) = Some job ∧ ExecJob.is_defined job = true
                ∧ ExecJob.has_defined_anscestors fuel (ExecTree.jobs t)
                    (ExecTree.deps t) k = Some false.
Proof.
  revert i ss. induction js as [| j js IH]; intros i ss H k; simpl in H.
  - simplify_eq. split; [by intros ?%elem_of_nil |].
    intros (_ & job & Hl & _). by rewrite lookup_nil in Hl.
  - destruct (ExecJob.has_defined_anscestors fuel _ _ i) as [anc |] eqn:Hanc; [| done].
    destruct (ExecTree.stems_from fuel t (S i) js) as [rest |] eqn:Hrest; [| done].
    simplify_eq. specialize (IH (S i) rest Hrest k).
    assert (k ∈ rest ↔ i < k ∧ ∃ job, (j :: js) !! (k - i) = Some job
                                  ∧ ExecJob.is_defined job = true
                                  ∧ ExecJob.has_defined_anscestors fuel
                                      (ExecTree.jobs t) (ExecTree.deps t) k
                                    = Some false) as Hrest'.
    { rewrite IH. split.
      - intros (Hle & job & Hl & Hrest'). split; [lia |]. exists job.
        replace (k - i) with (S (k - S i)) by lia. done.
      - intros (Hlt & job & Hl & Hrest'). split; [lia |]. exists job.
        replace (k - i) with (S (k - S i)) in Hl by lia. done. }
    destruct anc, (ExecJob.is_defined j) eqn:Hdj; simpl.
    all: rewrite ?elem_of_cons, Hrest'.
    all: split; [intros H; destruct_or?; destruct_and? |
                 intros (Hle & job & Hl & Hd & Hh)].
    all: try (split; [lia |]; by eauto).
    all: try (destruct (decide (k = i)) as [-> | Hne];
              [rewrite Nat.sub_diag in Hl; simplify_eq/= | ]).
    all: try congruence.
    all: try (split; [lia | by eauto]).
    all: try (right; split; [lia | by eauto]).
    all: try (subst; split; [lia |]; exists j; rewrite Nat.sub_diag; done).
    all: try by left.
Qed.

(** X8: when [stems] returns, the stems are exactly the defined jobs for
    which [has_defined_anscestors] is False; no parent of a stem is defined,
    and every defined orphan is a stem. *)
Theorem stems_spec (fuel : nat) (t : ExecTree.t) (ss : list nat) :
  ExecTree.stems fuel t = Some ss →
  (∀ i, i ∈ ss ↔
        ∃ job, ExecTree.jobs t !! i = Some job ∧ ExecJob.is_defined job = true
               ∧ ExecJob.has_defined_anscestors fuel (ExecTree.jobs t)
                   (ExecTree.deps t) i = Some false)
  ∧ (∀ i p, i ∈ ss → p ∈ ExecJob.parents (ExecTree.deps t) i →
            ∃ pj, ExecTree.jobs t !! p = Some pj ∧ ExecJob.is_defined pj = false)
  ∧ (∀ i job, ExecTree.jobs t !! i = Some job → ExecJob.is_defined job = true →
              ExecJob.orphan (ExecTree.deps t) i = true → i ∈ ss).
Proof.
  unfold ExecTree.stems. intros H.
  pose proof (stems_from_spec fuel t 0 (ExecTree.jobs t) ss H) as Hspec.
  assert (∀ i, i ∈ ss ↔
               ∃ job, ExecTree.jobs t !! i = Some job ∧ ExecJob.is_defined job = true
                      ∧ ExecJob.has_defined_anscestors fuel (ExecTree.jobs t)
                          (ExecTree.deps t) i = Some false) as Hiff.
  { intros i. rewrite Hspec, Nat.sub_0_r. split; [by intros [_ ?] |].
    intros ?. split; [lia | done]. }
  split; [exact Hiff |]. split.
  - intros i p Hi Hp. apply Hiff in Hi as (job & _ & _ & Hanc).
    destruct fuel as [| fuel]; [done |]. simpl in Hanc.
    destruct (any_parent_false _ _ _ Hanc p Hp) as (pj & Hpj & Hd & _). eauto.
  - intros i job Hjob Hdef Horph. apply Hiff. exists job. split; [done |]. split; [done |].
    destruct fuel as [| fuel].
    + exfalso. clear Hiff Hspec. apply lookup_lt_Some in Hjob.
      destruct (ExecTree.jobs t); simpl in *; [lia | done].
    + simpl. unfold ExecJob.orphan in Horph. apply bool_decide_eq_true in Horph.
      unfold ExecJob.parents. by rewrite Horph.
Qed.

Lemma stems_spec_witness :
  ∃ ss, ExecTree.stems 1 (Engine.tree Examples.chain) = Some ss ∧ 0 ∈ ss.
Proof.
  exists [0]. split; [reflexivity |].
  apply (proj2 (proj2 (stems_spec 1 (Engine.tree Examples.chain) [0] eq_refl))
           0 (Examples.job Examples.uuid_a "A" "/bin/true" [])); reflexivity.
Defined.

(** ** The search for cycles *)

Section Search.

Variable t : ExecTree.t.

Lemma passed_at_children x q c :
  ExecTree.passed_at t x q → ExecTree.child_of t x c →
  (x ∉ q) ∧ ExecTree.passed_at t c (q ++ [x]).
Proof.
  intros (fuel & v & v' & H) Hc.
  destruct fuel as [| fuel]; [done |]. simpl in H.
  unfold py_in in H. case_bool_decide as Hin; [done |]. split; [done |].
  destruct (visit_children_each _ _ _ _ _ _ _ (validate_nocycles_restores t fuel) H c Hc)
    as (vc & vc' & Hcall).
  by exists fuel, vc, vc'.
Qed.

Lemma passed_at_reaches x q y :
  ExecTree.passed_at t x q → ExecTree.reaches t x y →
  ∃ q', ExecTree.passed_at t y (q ++ x :: q').
Proof.
  intros Hx Hr. revert q Hx.
  induction Hr as [a b Hab | a b c Hab Hbc IH]; intros q Ha.
  - destruct (passed_at_children a q b Ha Hab) as [_ Hb]. by exists [].
  - destruct (passed_at_children a q b Ha Hab) as [_ Hb].
    destruct (IH _ Hb) as [q' Hc]. exists (b :: q').
    by rewrite <- app_assoc in Hc.
Qed.

Lemma passed_at_no_cycle x q : ExecTree.passed_at t x q → ¬ ExecTree.reaches t x x.
Proof.
  intros Hx Hr. destruct (passed_at_reaches x q x Hx Hr) as [q' Hx'].
  destruct Hx' as (fuel & v & v' & H).
  destruct fuel as [| fuel]; [done |]. simpl in H.
  unfold py_in in H. rewrite bool_decide_eq_true_2 in H; [done |].
  rewrite elem_of_app, elem_of_cons. tauto.
Qed.

Lemma visit_children_grows rec j cs v p b v' p' :
  (∀ c vc pc bc vc' pc', rec c vc pc = Some (bc, vc', pc') → vc ⊆ vc') →
  ExecTree.visit_children rec j cs v p = Some (b, v', p') → v ⊆ v'.
Proof.
  intros Hrec. revert v p. induction cs as [| c cs IH]; intros v p H; simpl in H.
  - by simplify_eq.
  - destruct (rec c v p) as [[[[] v1] p1] |] eqn:Hc; simplify_eq.
    + etrans; [by eapply Hrec | by eapply IH].
    + by eapply Hrec.
Qed.

Lemma validate_nocycles_grows fuel j v p b v' p' :
  ExecTree.validate_nocycles fuel t j v p = Some (b, v', p') → v ⊆ v'.
Proof.
  revert j v p b v' p'. induction fuel as [| fuel IH]; intros j v p b v' p' H; [done |].
  simpl in H. unfold py_in in H. case_bool_decide; [by simplify_eq |].
  apply (visit_children_grows _ _ _ _ _ _ _ _ IH) in H.
  case_bool_decide; [done |]. etrans; [| exact H].
  intros x Hx. apply elem_of_app. by left.
Qed.

Lemma validate_nocycles_self fuel j v p v' p' :
  ExecTree.validate_nocycles fuel t j v p = Some (true, v', p') → j ∈ v'.
Proof.
  destruct fuel as [| fuel]; [done |]. simpl. unfold py_in.
  case_bool_decide as Hin; [done |]. intros Hv.
  apply (visit_children_grows _ _ _ _ _ _ _ _ (validate_nocycles_grows fuel)) in Hv.
  apply Hv. case_bool_decide; [done |]. apply elem_of_app. right. apply list_elem_of_here.
Qed.

Lemma visit_children_covers fuel j cs v p v' p' :
  ExecTree.visit_children (ExecTree.validate_nocycles fuel t) j cs v p
  = Some (true, v', p') →
  ∀ c, c ∈ cs →
    ∃ vc vc' pc pc',
      ExecTree.validate_nocycles fuel t c vc pc = Some (true, vc', pc') ∧ vc' ⊆ v'.
Proof.
  revert v p. induction cs as [| c0 cs IH]; intros v p H c Hc; simpl in H.
  - by apply elem_of_nil in Hc.
  - destruct (ExecTree.validate_nocycles fuel t c0 v p) as [[[[] v1] p1] |] eqn:Hc0;
      simplify_eq.
    apply elem_of_cons in Hc as [-> | Hc].
    + exists v, v1, p, p1. split; [done |].
      by eapply (visit_children_grows _ _ _ _ _ _ _ _ (validate_nocycles_grows fuel)).
    + by eapply IH.
Qed.

Lemma validate_nocycles_covers y :
  ∀ j, ExecTree.reaches t j y →
  ∀ fuel v p v' p',
    ExecTree.validate_nocycles fuel t j v p = Some (true, v', p') → y ∈ v'.
Proof.
  intros j Hr. induction Hr as [a b Hab | a b c Hab Hbc IH];
    intros fuel v p v' p' H.
  - destruct fuel as [| fuel]; [done |]. simpl in H. unfold py_in in H.
    case_bool_decide; [done |].
    destruct (visit_children_covers _ _ _ _ _ _ _ H b Hab)
      as (vc & vc' & pc & pc' & Hcall & Hsub).
    apply Hsub. by eapply validate_nocycles_self.
  - destruct fuel as [| fuel]; [done |]. simpl in H. unfold py_in in H.
    case_bool_decide; [done |].
    destruct (visit_children_covers _ _ _ _ _ _ _ H b Hab)
      as (vc & vc' & pc & pc' & Hcall & Hsub).
    apply Hsub. by eapply IH.
Qed.

Lemma nocycles_sound fuel j v p v' p' :
  ExecTree.validate_nocycles fuel t j v p = Some (true, v', p') →
  p' = p ∧ j ∈ v' ∧ v ⊆ v'
  ∧ ¬ ExecTree.reaches t j j
  ∧ ∀ y, ExecTree.reaches t j y → y ∈ v' ∧ ¬ ExecTree.reaches t y y.
Proof.
  intros H.
  pose proof (validate_nocycles_restores t fuel _ _ _ _ _ H) as ->.
  assert (ExecTree.passed_at t j p) as Hj by (by exists fuel, v, v').
  split; [done |]. split; [by eapply validate_nocycles_self |].
  split; [by eapply validate_nocycles_grows |].
  split; [by eapply passed_at_no_cycle |].
  intros y Hy. split; [by eapply validate_nocycles_covers |].
  destruct (passed_at_reaches j p y Hj Hy) as [q' Hy'].
  by eapply passed_at_no_cycle.
Qed.

End Search.

(** X9: when [validate_nocycles] returns True on a job, it hands [parents]
    back unchanged, [visited] has grown to hold the job and every job
    reached from it along dependencies, and none of these jobs lies on a
    cycle. *)
Theorem validate_nocycles_true (t : ExecTree.t) (fuel j : nat)
    (visited parents visited' parents' : list nat) :
  ExecTree.validate_nocycles fuel t j visited parents
  = Some (true, visited', parents') →
  parents' = parents ∧ j ∈ visited' ∧ visited ⊆ visited'
  ∧ ¬ ExecTree.reaches t j j
  ∧ ∀ y, ExecTree.reaches t j y → y ∈ visited' ∧ ¬ ExecTree.reaches t y y.
Proof. apply nocycles_sound. Qed.

Lemma validate_nocycles_true_witness :
  ¬ ExecTree.reaches (Engine.tree Examples.chain) 0 0
  ∧ (ExecTree.reaches (Engine.tree Examples.chain) 0 1 → 1 ∈ [0; 1]).
Proof.
  pose proof (validate_nocycles_true (Engine.tree Examples.chain) 2 0 [] [] [0; 1] []
                eq_refl) as (_ & _ & _ & Hno & Hall).
  split; [exact Hno |]. intros Hr. apply (Hall 1 Hr).
Defined.


(** ** ExecTree.validate on a tree with a cycle *)

Section CycleSearch.
Variable t : ExecTree.t.









End CycleSearch.




Section CycleReport.
Variable t : ExecTree.t.






End CycleReport.



(** ** ExecTree.validate without errors *)

(** X10: when [validate] returns no error, the tree has exactly one stem,
    the search from it has returned True and has visited every defined job,
    no job reached from the stem lies on a cycle, no job has an error of
    its own and the iterator, if any, has an argument. *)
Theorem validate_no_errors (path_exists access_x : string → bool) (fuel : nat)
    (t : ExecTree.t) :
  ExecTree.validate path_exists access_x fuel t = Some [] →
  ∃ fuel' stem visited,
    fuel = S fuel'
    ∧ ExecTree.stems fuel' t = Some [stem]
    ∧ ExecTree.validate_nocycles fuel' t stem [] [] = Some (true, visited, [])
    ∧ (∀ i job, ExecTree.jobs t !! i = Some job → ExecJob.is_defined job = true →
                i ∈ visited)
    ∧ (∀ y, ExecTree.reaches t stem y → ¬ ExecTree.reaches t y y)
    ∧ ExecTree.job_errors path_exists access_x
        (ExecTree.validate path_exists access_x fuel') t = Some []
    ∧ ExecTree.iterator_errors t = [].
Proof.
  destruct fuel as [| fuel]; [done |]. rewrite validate_S.
  destruct (ExecTree.stems fuel t) as [ss |] eqn:Hss; [| done].
  destruct (ExecTree.collect _ ss) as [errors1 |] eqn:H1; [| done].
  destruct (ExecTree.job_errors _ _ _ t) as [errors2 |] eqn:H2; [| done].
  intros H. simplify_eq.
  apply app_eq_nil in H as [H0 H]. apply app_eq_nil in H as [-> H].
  apply app_eq_nil in H as [-> Hit].
  destruct ss as [| stem [| s' ss]]; [done | |].
  2: { exfalso. revert H0. repeat case_bool_decide; simpl in *; try done; lia. }
  clear H0. simpl in H1.
  destruct (ExecTree.validate_stem fuel t stem) as [e |] eqn:He; [| done].
  simplify_eq. assert (e = []) as -> by (by destruct e).
  unfold ExecTree.validate_stem in He.
  destruct (ExecTree.validate_nocycles fuel t stem [] [])
    as [[[nocycles visited] p] |] eqn:Hnc; [| done].
  simplify_eq. apply app_eq_nil in He as [Hc Hu].
  destruct nocycles; [| done]. clear Hc.
  destruct (nocycles_sound t _ _ _ _ _ _ Hnc) as (-> & _ & _ & _ & Hreach).
  exists fuel, stem, visited. repeat split; try done.
  - intros i job Hjob Hdef.
    case_bool_decide as Hlen; [done |].
    destruct (decide (i ∈ visited)) as [| Hni]; [done |]. exfalso. apply Hlen.
    match goal with
    | |- context [filter ?P ?l] => assert (i ∈ filter P l) as Hf
    end.
    { apply list_elem_of_filter. split.
      - rewrite Hjob. simpl. done.
      - apply elem_of_seq. apply lookup_lt_Some in Hjob. lia. }
    destruct (filter _ _); [by apply elem_of_nil in Hf | simpl; lia].
  - intros y Hy. by apply Hreach.
Qed.

Lemma validate_no_errors_witness :
  ∃ fuel' stem visited,
    3 = S fuel'
    ∧ ExecTree.stems fuel' (Engine.tree Examples.chain) = Some [stem]
    ∧ ExecTree.validate_nocycles fuel' (Engine.tree Examples.chain) stem [] []
      = Some (true, visited, []).
Proof.
  destruct (validate_no_errors (λ _, true) (λ _, true) 3 (Engine.tree Examples.chain)
              eq_refl) as (fuel' & stem & visited & H1 & H2 & H3 & _).
  by exists fuel', stem, visited.
Defined.

(** ** ExecTree.add_dep and add_job *)

Lemma find_job_lt (t : ExecTree.t) (needle : string) (i : nat) :
  ExecTree.find_job t needle = Some i → i < length (ExecTree.jobs t).
Proof.
  unfold ExecTree.find_job. intros H.
  destruct (list_find _ _) as [[i' j] |] eqn:Hf; simplify_eq/=.
  apply list_find_Some in Hf as (Hl & _). by eapply lookup_lt_Some.
Qed.

(** What one call of [add_dep] does. *)
Lemma add_dep_outcome (t : ExecTree.t) (parent child : ExecTree.jobref) (state : Z) :
  match ExecTree.add_dep t parent child state with
  | Ok (t', Some d) =>
      t' = ExecTree.with_deps t (ExecTree.deps t ++ [d])
      ∧ ExecDependency.parent d ≠ ExecDependency.child d
      ∧ ExecDependency.parent d < length (ExecTree.jobs t)
      ∧ ExecDependency.child d < length (ExecTree.jobs t)
      ∧ (ExecDependency.parent d
         ∉ ExecJob.parents (ExecTree.deps t) (ExecDependency.child d))
      ∧ state_code (ExecDependency.state d) = state
  | Ok (t', None) => t' = t
  | Raise e => e = JobUndefinedError ∨ e = DependencyError ∨ e = UnknownStateError
  end.
Proof.
  unfold ExecTree.add_dep, ExecTree.add_dep_with, py_in.
  assert (∀ r, ∃ m, (match r with
                     | ExecTree.JobObj i => Ok i
                     | ExecTree.JobKey s =>
                         match ExecTree.find_job t s with
                         | Some i => Ok i
                         | None => Raise JobUndefinedError
                         end
                     end) = m
                    ∧ match m with
                      | Ok _ => True
                      | Raise e => e = JobUndefinedError
                      end) as Hres.
  { intros [i | s]; [by eexists |]. destruct (ExecTree.find_job t s); by eexists. }
  destruct (Hres parent) as (mp & -> & Hmp). destruct (Hres child) as (mc & -> & Hmc).
  destruct mp as [p | e]; simpl; [| by left].
  destruct mc as [c | e]; simpl; [| by left].
  repeat (case_bool_decide; simpl); auto.
  unfold ExecDependency.init, py_in. case_bool_decide as Hst; simpl; [| auto].
  destruct (state_of_code_STATES state Hst) as (st & -> & Hcode). simpl.
  repeat split; try done; lia.
Qed.

Lemma add_dep_well_formed (t : ExecTree.t) (parent child : ExecTree.jobref)
    (state : Z) (r : ExecTree.t * option ExecDependency.t) :
  ExecTree.deps_well_formed t →
  ExecTree.add_dep t parent child state = Ok r →
  ExecTree.deps_well_formed (fst r) ∧ ExecTree.jobs (fst r) = ExecTree.jobs t.
Proof.
  intros [Hall Hnodup] Hadd.
  pose proof (add_dep_outcome t parent child state) as Hout. rewrite Hadd in Hout.
  destruct r as [t' [d |]]; simpl; [| by subst].
  destruct Hout as (-> & Hne & Hp & Hc & Hnew & _). split; [| done].
  unfold ExecTree.deps_well_formed. simpl. split.
  - intros d' Hd'. apply elem_of_app in Hd' as [Hd' | Hd']; [by apply Hall |].
    apply list_elem_of_singleton in Hd' as ->. done.
  - rewrite fmap_app. apply NoDup_app. split; [done |]. split.
    + intros pc Hpc Hpc'. simpl in Hpc'. apply list_elem_of_singleton in Hpc' as ->.
      apply list_elem_of_fmap in Hpc as (d' & Heq & Hd'). simplify_eq.
      apply Hnew. unfold ExecJob.parents, ExecJob.parent_deps.
      apply list_elem_of_fmap. exists d'. split; [done |].
      by apply list_elem_of_filter.
    + simpl. apply NoDup_singleton.
Qed.

(** X11: whatever [add_dep] calls are made on a tree, no dependency joins
    a job to itself or to a job outside the tree, and no two dependencies
    join the same parent to the same child; the jobs are not touched. *)
Theorem add_deps_well_formed (t : ExecTree.t)
    (calls : list (ExecTree.jobref * ExecTree.jobref * Z)) :
  ExecTree.deps_well_formed t →
  ExecTree.deps_well_formed (ExecTree.add_deps t calls)
  ∧ ExecTree.jobs (ExecTree.add_deps t calls) = ExecTree.jobs t.
Proof.
  unfold ExecTree.add_deps. revert t.
  induction calls as [| [[p c] st] calls IH]; intros t Hwf; simpl; [done |].
  destruct (ExecTree.add_dep t p c st) as [r | e] eqn:Hadd; [| by apply IH].
  destruct (add_dep_well_formed t p c st r Hwf Hadd) as [Hwf' Hjobs].
  destruct (IH (fst r) Hwf') as [? ?]. split; [done | congruence].
Qed.

Lemma add_deps_well_formed_witness :
  ExecTree.deps_well_formed
    (ExecTree.add_deps
       (Examples.tree_of (ExecTree.jobs Examples.cyclic_pair) [] [])
       [(ExecTree.JobKey "A", ExecTree.JobKey "B", 2%Z);
        (ExecTree.JobKey "A", ExecTree.JobKey "A", 2%Z);
        (ExecTree.JobKey "A", ExecTree.JobKey "B", 3%Z);
        (ExecTree.JobObj 1, ExecTree.JobObj 0, 9%Z)]).
Proof.
  apply (add_deps_well_formed
           (Examples.tree_of (ExecTree.jobs Examples.cyclic_pair) [] [])).
  split; [| apply NoDup_nil_2].
  intros d Hd. by apply elem_of_nil in Hd.
Defined.

Lemma add_dep_objs (t : ExecTree.t) (p c : nat) (state : Z) :
  ExecTree.add_dep t (ExecTree.JobObj p) (ExecTree.JobObj c) state
  = if bool_decide (p < length (ExecTree.jobs t))
       && bool_decide (c < length (ExecTree.jobs t))
    then if bool_decide (p = c) then Raise DependencyError
         else if bool_decide (p ∈ ExecJob.parents (ExecTree.deps t) c)
              then Ok (t, None)
              else match state_of_code state with
                   | Some st =>
                       Ok (ExecTree.with_deps t
                             (ExecTree.deps t
                              ++ [ExecDependency.mk p c st "palegreen" "deepskyblue"]),
                           Some (ExecDependency.mk p c st "palegreen" "deepskyblue"))
                   | None => Raise UnknownStateError
                   end
    else Raise JobUndefinedError.
Proof.
  unfold ExecTree.add_dep, ExecTree.add_dep_with, py_in. simpl.
  case_bool_decide as Hp; case_bool_decide as Hc; simpl; try done.
  case_bool_decide; [done |].
  case_bool_decide; simpl; [done |].
  unfold ExecDependency.init, py_in.
  case_bool_decide as Hst; simpl.
  - by destruct (state_of_code_STATES state Hst) as (st & -> & _).
  - destruct (state_of_code state) as [st |] eqn:Hsc; [| done].
    exfalso. apply Hst. unfold state_of_code in Hsc.
    apply find_some in Hsc as [_ Hcode]. apply bool_decide_eq_true in Hcode as <-.
    destruct st; unfold STATES; rewrite !elem_of_cons; tauto.
Qed.

Lemma add_dep_keys (t : ExecTree.t) (needle : string) (p : nat)
    (ref : ExecTree.jobref) (state : Z) :
  ExecTree.add_dep t (ExecTree.JobKey needle) ref state
  = match ExecTree.find_job t needle with
    | Some p => ExecTree.add_dep t (ExecTree.JobObj p) ref state
    | None => Raise JobUndefinedError
    end
  ∧ ExecTree.add_dep t (ExecTree.JobObj p) (ExecTree.JobKey needle) state
    = match ExecTree.find_job t needle with
      | Some c => ExecTree.add_dep t (ExecTree.JobObj p) (ExecTree.JobObj c) state
      | None => Raise JobUndefinedError
      end.
Proof.
  unfold ExecTree.add_dep, ExecTree.add_dep_with. simpl.
  by destruct (ExecTree.find_job t needle).
Qed.

(** X12: [add_dep] first settles the two jobs: a name or uuid stands for
    the job [find_job] returns for it, a job object for itself when it is
    in the tree.  It raises [JobUndefinedError] when the parent or the child
    cannot be settled so; otherwise [DependencyError] when the two are the
    same job; otherwise it returns None and leaves the tree alone when the
    two are already joined, whatever the state asked for; otherwise it
    raises [UnknownStateError] for a state outside [STATES], and else
    appends exactly one dependency, between the two jobs, with the state
    asked for and the default colours, and returns it. *)
Theorem add_dep_cases (t : ExecTree.t) (parent child : ExecTree.jobref) (state : Z) :
  let job_of (ref : ExecTree.jobref) :=
    match ref with
    | ExecTree.JobObj i =>
        if bool_decide (i < length (ExecTree.jobs t)) then Some i else None
    | ExecTree.JobKey needle => ExecTree.find_job t needle
    end in
  ExecTree.add_dep t parent child state
  = match job_of parent, job_of child with
    | Some p, Some c =>
        if bool_decide (p = c) then Raise DependencyError
        else if bool_decide (p ∈ ExecJob.parents (ExecTree.deps t) c)
             then Ok (t, None)
             else match state_of_code state with
                  | Some st =>
                      let d := ExecDependency.mk p c st "palegreen" "deepskyblue" in
                      Ok (ExecTree.with_deps t (ExecTree.deps t ++ [d]), Some d)
                  | None => Raise UnknownStateError
                  end
    | _, _ => Raise JobUndefinedError
    end
  ∧ (state_of_code state = None ↔ (state ∉ STATES))
  ∧ (∀ st, state_of_code state = Some st → state_code st = state).
Proof.
  assert (∀ st, state_of_code state = Some st → state_code st = state) as Hcode.
  { intros st Hsc. unfold state_of_code in Hsc.
    apply find_some in Hsc as [_ Hc]. by apply bool_decide_eq_true in Hc. }
  cbv zeta. split; [| split; [| done]].
  - destruct parent as [p | pn].
    + destruct child as [c | cn].
      * rewrite add_dep_objs.
        by case_bool_decide; case_bool_decide.
      * rewrite (proj2 (add_dep_keys t cn p (ExecTree.JobObj 0) state)).
        destruct (ExecTree.find_job t cn) as [c |] eqn:Hcn; [| by case_bool_decide].
        rewrite add_dep_objs.
        rewrite (bool_decide_eq_true_2 (c < _)) by (by eapply find_job_lt).
        by case_bool_decide.
    + rewrite (proj1 (add_dep_keys t pn 0 child state)).
      destruct (ExecTree.find_job t pn) as [p |] eqn:Hpn; [| done].
      pose proof (find_job_lt _ _ _ Hpn) as Hp.
      destruct child as [c | cn].
      * rewrite add_dep_objs, (bool_decide_eq_true_2 (p < _)) by done.
        by case_bool_decide.
      * rewrite (proj2 (add_dep_keys t cn p (ExecTree.JobObj 0) state)).
        destruct (ExecTree.find_job t cn) as [c |] eqn:Hcn; [| done].
        rewrite add_dep_objs, (bool_decide_eq_true_2 (p < _)) by done.
        by rewrite (bool_decide_eq_true_2 (c < _)) by (by eapply find_job_lt).
  - split.
    + intros Hn Hin. destruct (state_of_code_STATES state Hin) as (st & Hst & _).
      congruence.
    + intros Hout. destruct (state_of_code state) as [st |] eqn:Hsc; [| done].
      exfalso. apply Hout. rewrite <- (Hcode st eq_refl).
      destruct st; unfold STATES; simpl; rewrite !elem_of_cons; tauto.
Qed.

Lemma find_job_app (t : ExecTree.t) (job : ExecJob.t) (needle : string) :
  fst <$> list_find
            (λ j, needle = ExecJob.name j ∨ needle = ExecJob.uuid j)
            (ExecTree.jobs t ++ [job])
  = match ExecTree.find_job t needle with
    | Some i => Some i
    | None =>
        if bool_decide (needle = ExecJob.name job ∨ needle = ExecJob.uuid job)
        then Some (length (ExecTree.jobs t)) else None
    end.
Proof.
  unfold ExecTree.find_job.
  destruct (list_find _ (ExecTree.jobs t)) as [[i j] |] eqn:Hf; simpl.
  - erewrite list_find_app_l; [done | exact Hf].
  - rewrite list_find_app_r by done. simpl.
    case_decide; simpl; [rewrite bool_decide_eq_true_2 by done
                        | rewrite bool_decide_eq_false_2 by done]; simpl.
    + f_equal.
    + done.
Qed.

(** X13: [add_job] raises [JobDefinedError] exactly when [find_job] finds
    a job under the name of the new one.  Otherwise, when the job belongs
    to a tree already, it raises [TreeDefinedError] and leaves the jobs and
    the dependencies as they were.  Otherwise it adds the job: the job is
    the last of the tree and is what [find_job] returns for its name
    afterwards, every job found before is still found, and job names that
    were pairwise different still are. *)
Theorem add_job_spec (t : ExecTree.t) (job : ExecJob.t) (st : option ExecTree.t)
    (owned : bool) :
  match ExecTree.add_job t job st owned with
  | ExecTree.Added t' =>
      owned = false
      ∧ ExecTree.find_job t (ExecJob.name job) = None
      ∧ ExecTree.jobs t' = ExecTree.jobs t ++ [job]
      ∧ ExecTree.deps t' = ExecTree.deps t
      ∧ ExecTree.find_job t' (ExecJob.name job) = Some (length (ExecTree.jobs t))
      ∧ (∀ needle i, ExecTree.find_job t needle = Some i →
                     ExecTree.find_job t' needle = Some i)
      ∧ (NoDup (ExecJob.name <$> ExecTree.jobs t) →
         NoDup (ExecJob.name <$> ExecTree.jobs t'))
  | ExecTree.JobDefinedError => ExecTree.find_job t (ExecJob.name job) ≠ None
  | ExecTree.JobTreeDefinedError t' =>
      owned = true
      ∧ ExecTree.find_job t (ExecJob.name job) = None
      ∧ ExecTree.jobs t' = ExecTree.jobs t
      ∧ ExecTree.deps t' = ExecTree.deps t
  end.
Proof.
  unfold ExecTree.add_job. case_bool_decide as Hnone; [done |].
  destruct owned; [done |]. repeat split; try done.
  - unfold ExecTree.find_job at 1. cbn [ExecTree.jobs ExecTree.with_jobs].
    rewrite (find_job_app t job), Hnone. rewrite bool_decide_eq_true_2; [done | by left].
  - intros needle i Hi. unfold ExecTree.find_job at 1.
    cbn [ExecTree.jobs ExecTree.with_jobs]. by rewrite (find_job_app t job), Hi.
  - intros Hnd. cbn [ExecTree.jobs ExecTree.with_jobs]. rewrite fmap_app.
    apply NoDup_app. split; [done |]. split; [| apply NoDup_singleton].
    intros n Hn Hn'. simpl in Hn'. apply list_elem_of_singleton in Hn' as ->.
    apply list_elem_of_fmap in Hn as (j & Hname & Hj).
    apply list_elem_of_lookup in Hj as [i Hi].
    unfold ExecTree.find_job in Hnone.
    destruct (list_find (λ j0, ExecJob.name job = ExecJob.name j0
                               ∨ ExecJob.name job = ExecJob.uuid j0)
                (ExecTree.jobs t)) as [[i' j'] |] eqn:Hf; [done |].
    apply list_find_None in Hf. rewrite Forall_forall in Hf.
    apply (Hf j); [by eapply list_elem_of_lookup_2 | by left].
Qed.


(** ** Documents written and read back *)

(** X14: a resource written with [xml()] and read back keeps its name and
    uuid; its capacity comes back as the text of the number, its counter
    at 0 and its timeout at 60.  Against a text capacity [reserve] finds
    the counter below the capacity whatever the counter is: it adds one
    and returns True at once. *)
Theorem resource_round_trip (r : ExecResource.t) :
  UUID (ExecResource.uuid r) = Ok (ExecResource.uuid r) →
  ∃ r',
    ExecResource.of_xml (ExecResource.xml r) = Ok r'
    ∧ ExecResource.name r' = ExecResource.name r
    ∧ ExecResource.uuid r' = ExecResource.uuid r
    ∧ ExecResource.avail r' = PyStr (py_str (ExecResource.avail r))
    ∧ ExecResource.used r' = 0%Z
    ∧ ExecResource.reserve_timeout r' = 60%Z
    ∧ ∀ blocking u,
        ExecResource.reserve_enter blocking (ExecResource.with_used r' u)
        = (ExecResource.with_used r' (u + 1), Some true).
Proof.
  intros Hu. unfold ExecResource.of_xml, ExecResource.xml, attrib_item, attrib_get.
  simpl. rewrite Hu. simpl. eexists. split; [reflexivity |].
  repeat split.
Qed.

Lemma resource_round_trip_witness :
  ∃ r',
    ExecResource.of_xml
      (ExecResource.xml
         (ExecResource.init "000000000000000000000000000000f1" "db" 1 60)) = Ok r'
    ∧ ExecResource.avail r' = PyStr "1"
    ∧ ExecResource.reserve_enter true (ExecResource.with_used r' 7)
      = (ExecResource.with_used r' 8, Some true).
Proof.
  destruct (resource_round_trip
              (ExecResource.init "000000000000000000000000000000f1" "db" 1 60)
              eq_refl) as (r' & Hr & _ & _ & Ha & _ & _ & Hres).
  exists r'. split; [exact Hr |]. split; [exact Ha |]. apply (Hres true 7%Z).
Defined.

Lemma py_int_state_code (s : jstate) :
  py_int (py_str_int (state_code s)) = Ok (state_code s).
Proof. destruct s; reflexivity. Qed.

Lemma state_of_code_state_code (s : jstate) : state_of_code (state_code s) = Some s.
Proof. destruct s; reflexivity. Qed.

Lemma state_code_STATES (s : jstate) : state_code s ∈ STATES.
Proof. destruct s; unfold STATES; simpl; rewrite !elem_of_cons; tauto. Qed.

Lemma add_dep_xml_written (t : ExecTree.t) (d : ExecDependency.t)
    (job_uuid : nat → string) :
  ExecTree.find_job t (job_uuid (ExecDependency.parent d))
  = Some (ExecDependency.parent d) →
  ExecTree.find_job t (job_uuid (ExecDependency.child d))
  = Some (ExecDependency.child d) →
  ExecDependency.parent d ≠ ExecDependency.child d →
  ExecTree.add_dep_xml t (ExecDependency.xml job_uuid d)
  = if bool_decide (ExecDependency.parent d
                    ∈ ExecJob.parents (ExecTree.deps t) (ExecDependency.child d))
    then Raise AttributeError
    else Ok (ExecTree.with_deps t (ExecTree.deps t ++ [d]), Some d).
Proof.
  intros Hp Hc Hne.
  pose proof (find_job_lt _ _ _ Hp) as Hpl.
  pose proof (find_job_lt _ _ _ Hc) as Hcl.
  unfold ExecTree.add_dep_xml, ExecDependency.xml, attrib_item. simpl.
  rewrite py_int_state_code. simpl.
  unfold ExecTree.add_dep_with. rewrite Hp, Hc. simpl.
  rewrite !bool_decide_eq_true_2 by done. simpl.
  rewrite bool_decide_eq_false_2 by done.
  unfold py_in. case_bool_decide as Hin; simpl; [done |].
  unfold ExecDependency.init, py_in.
  rewrite (bool_decide_eq_true_2 _ (state_code_STATES _)), state_of_code_state_code.
  simpl. by destruct d.
Qed.

(** X15: a dependency written with [xml()] and given to [add_dep(xml=...)]
    on a tree that finds both jobs under their uuid, and where the two are
    not joined yet, is appended as it was: same jobs, same state, same
    colours. *)
Theorem dependency_round_trip (t : ExecTree.t) (d : ExecDependency.t)
    (job_uuid : nat → string) :
  ExecTree.find_job t (job_uuid (ExecDependency.parent d))
  = Some (ExecDependency.parent d) →
  ExecTree.find_job t (job_uuid (ExecDependency.child d))
  = Some (ExecDependency.child d) →
  ExecDependency.parent d ≠ ExecDependency.child d →
  (ExecDependency.parent d
   ∉ ExecJob.parents (ExecTree.deps t) (ExecDependency.child d)) →
  ExecTree.add_dep_xml t (ExecDependency.xml job_uuid d)
  = Ok (ExecTree.with_deps t (ExecTree.deps t ++ [d]), Some d).
Proof.
  intros Hp Hc Hne Hnew. rewrite add_dep_xml_written by done.
  by rewrite bool_decide_eq_false_2.
Qed.

Lemma dependency_round_trip_witness :
  let t := Examples.tree_of (ExecTree.jobs Examples.cyclic_pair) [] [] in
  let job_uuid i := default "" (ExecJob.uuid <$> ExecTree.jobs t !! i) in
  ExecTree.add_dep_xml t (ExecDependency.xml job_uuid (Examples.dep 0 1))
  = Ok (ExecTree.with_deps t [Examples.dep 0 1], Some (Examples.dep 0 1)).
Proof.
  intros t job_uuid.
  apply (dependency_round_trip t (Examples.dep 0 1) job_uuid eq_refl eq_refl).
  - simpl. lia.
  - simpl. apply not_elem_of_nil.
Defined.

(** X16: [add_dep(xml=...)] on a document that names two jobs already
    joined does not return None as [add_dep(parent, child)] does: it raises
    [AttributeError], setting the colours on the dependency it has not
    made. *)
Theorem add_dep_xml_duplicate (t : ExecTree.t) (d : ExecDependency.t)
    (job_uuid : nat → string) :
  ExecTree.find_job t (job_uuid (ExecDependency.parent d))
  = Some (ExecDependency.parent d) →
  ExecTree.find_job t (job_uuid (ExecDependency.child d))
  = Some (ExecDependency.child d) →
  ExecDependency.parent d ≠ ExecDependency.child d →
  ExecDependency.parent d
  ∈ ExecJob.parents (ExecTree.deps t) (ExecDependency.child d) →
  ExecTree.add_dep_xml t (ExecDependency.xml job_uuid d) = Raise AttributeError
  ∧ ExecTree.add_dep t (ExecTree.JobObj (ExecDependency.parent d))
      (ExecTree.JobObj (ExecDependency.child d))
      (state_code (ExecDependency.state d)) = Ok (t, None).
Proof.
  intros Hp Hc Hne Hin. split.
  - rewrite add_dep_xml_written by done. by rewrite bool_decide_eq_true_2.
  - pose proof (find_job_lt _ _ _ Hp) as Hpl.
    pose proof (find_job_lt _ _ _ Hc) as Hcl.
    unfold ExecTree.add_dep, ExecTree.add_dep_with, py_in. simpl.
    rewrite !bool_decide_eq_true_2 by done. simpl.
    rewrite bool_decide_eq_false_2 by done.
    by rewrite (bool_decide_eq_true_2 _ Hin).
Qed.

Lemma add_dep_xml_duplicate_witness :
  let t := Examples.tree_of (ExecTree.jobs Examples.cyclic_pair) [Examples.dep 0 1] [] in
  let job_uuid i := default "" (ExecJob.uuid <$> ExecTree.jobs t !! i) in
  ExecTree.add_dep_xml t (ExecDependency.xml job_uuid (Examples.dep 0 1))
  = Raise AttributeError.
Proof.
  intros t job_uuid.
  apply (add_dep_xml_duplicate t (Examples.dep 0 1) job_uuid eq_refl eq_refl).
  - simpl. lia.
  - simpl. apply list_elem_of_here.
Defined.


(** ** ExecTree.cancel and ExecTree.is_done *)

Lemma forallb_map_ext {A B} (f : A → B) (p : B → bool) (q : A → bool) (l : list A) :
  (∀ x, p (f x) = q x) → forallb p (f <$> l) = forallb q l.
Proof.
  intros H. induction l as [| x l IH]; [done |].
  rewrite fmap_cons. cbn [forallb]. by rewrite H, IH.
Qed.

Lemma job_cancel_outcome (j : ExecJob.t) :
  (ExecJob.state (snd (ExecJob.cancel j)) = STATE_RUNNING
   ∨ ExecJob.is_done (snd (ExecJob.cancel j)) = true)
  ∧ ExecJob.mustcomplete (snd (ExecJob.cancel j)) = ExecJob.mustcomplete j
  ∧ ExecJob.is_done (snd (ExecJob.cancel j))
    = negb (bool_decide (ExecJob.state j = STATE_RUNNING))
  ∧ (ExecJob.is_done j = true → snd (ExecJob.cancel j) = j).
Proof.
  destruct j as [? ? st ? ? ? ? ? ? ? ? ? ? ? ? ? ?].
  destruct st; cbv; intuition congruence.
Qed.

Lemma cancel_subtrees (l : list ExecTree.t) :
  (fix go (l : list ExecTree.t) : list ExecTree.t :=
     match l with
     | [] => []
     | st :: l' => ExecTree.cancel st :: go l'
     end) l = ExecTree.cancel <$> l.
Proof. induction l as [| st l IH]; [done |]. simpl. by rewrite IH. Qed.

Lemma cancel_cancelled (t : ExecTree.t) :
  ExecTree.cancelled (ExecTree.cancel t) = true
  ∧ ExecTree._done (ExecTree.cancel t) = ExecTree._done t.
Proof.
  destruct t; simpl. destruct cancelled; simpl; [done |].
  by destruct (ExecTree.is_done_check _).
Qed.

Lemma cancel_unfold (t : ExecTree.t) :
  ExecTree.cancelled t = false →
  let t1 :=
    {| ExecTree.jobs := (λ job, snd (ExecJob.cancel job)) <$> ExecTree.jobs t;
       ExecTree.deps := ExecTree.deps t;
       ExecTree.subtrees := ExecTree.cancel <$> ExecTree.subtrees t;
       ExecTree.done_event := ExecTree.done_event t;
       ExecTree._done := ExecTree._done t;
       ExecTree.resources := ExecTree.resources t; ExecTree.cancelled := true;
       ExecTree.started := ExecTree.started t; ExecTree.legend := ExecTree.legend t;
       ExecTree.uuid := ExecTree.uuid t; ExecTree.name := ExecTree.name t;
       ExecTree.href := ExecTree.href t; ExecTree.cwd := ExecTree.cwd t;
       ExecTree.iterator := ExecTree.iterator t;
       ExecTree.waitsuccess := ExecTree.waitsuccess t |} in
  ExecTree.cancel t
  = if ExecTree.is_done_check t1 then ExecTree.with_flags t1 true true else t1.
Proof.
  intros Hc. destruct t; simpl in *. rewrite Hc. by rewrite cancel_subtrees.
Qed.

Lemma is_done_check_cancelled (t : ExecTree.t) :
  ExecTree.cancelled t = true →
  ExecTree.is_done_check t
  = forallb (λ job, negb (ExecJob.mustcomplete job) || ExecJob.is_done job)
            (ExecTree.jobs t).
Proof.
  intros Hc. unfold ExecTree.is_done_check. rewrite Hc. simpl.
  induction (ExecTree.jobs t) as [| j js IH]; [done |]. simpl. rewrite IH.
  by destruct (ExecJob.mustcomplete j).
Qed.

(** X17: [cancel()] leaves the tree cancelled, and a second [cancel()]
    changes nothing.  On a tree that was not cancelled, every job ends up
    RUNNING or in a DONE state, every sub-tree ends up cancelled, and the
    done event is set when no must-complete job is RUNNING (otherwise it is
    left as it was).  The flag [_done] is not touched. *)
Theorem tree_cancel_spec (t : ExecTree.t) :
  ExecTree.cancelled t = false →
  ExecTree.cancelled (ExecTree.cancel t) = true
  ∧ ExecTree.cancel (ExecTree.cancel t) = ExecTree.cancel t
  ∧ ExecTree._done (ExecTree.cancel t) = ExecTree._done t
  ∧ Forall (λ job, ExecJob.state job = STATE_RUNNING ∨ ExecJob.is_done job = true)
           (ExecTree.jobs (ExecTree.cancel t))
  ∧ Forall (λ st, ExecTree.cancelled st = true)
           (ExecTree.subtrees (ExecTree.cancel t))
  ∧ ExecTree.done_event (ExecTree.cancel t)
    = (if forallb (λ job, negb (ExecJob.mustcomplete job)
                          || negb (bool_decide (ExecJob.state job = STATE_RUNNING)))
                  (ExecTree.jobs t)
       then true else ExecTree.done_event t).
Proof.
  intros Hc. destruct (cancel_cancelled t) as [Hc' Hd].
  split; [done |]. split.
  { destruct (ExecTree.cancel t); simpl in *. by rewrite Hc'. }
  split; [done |].
  rewrite (cancel_unfold t Hc). cbv zeta.
  rewrite is_done_check_cancelled by done. cbn [ExecTree.jobs].
  rewrite (forallb_map_ext _ _
             (λ job, negb (ExecJob.mustcomplete job)
                     || negb (bool_decide (ExecJob.state job = STATE_RUNNING)))).
  2: { intros j. destruct (job_cancel_outcome j) as (_ & Hm & Hdn & _).
       by rewrite Hm, Hdn. }
  assert (∀ (b : bool) (x y : ExecTree.t) (P : ExecTree.t → Prop),
            P x → P y → P (if b then x else y)) as Hif by (by intros []).
  split; [| split].
  - apply Hif; simpl; apply Forall_fmap, Forall_forall; intros j _;
      apply job_cancel_outcome.
  - apply Hif; simpl; apply Forall_fmap, Forall_forall; intros st _;
      apply cancel_cancelled.
  - destruct (forallb _ (ExecTree.jobs t)); reflexivity.
Qed.

Lemma tree_cancel_spec_witness :
  ExecTree.cancelled (ExecTree.cancel (Engine.tree Examples.chain_after)) = true
  ∧ ExecTree.done_event (ExecTree.cancel (Engine.tree Examples.chain_after)) = false.
Proof.
  destruct (tree_cancel_spec (Engine.tree Examples.chain_after) eq_refl)
    as (Hc & _ & _ & _ & _ & Hd).
  split; [exact Hc | exact Hd].
Defined.

Lemma is_done_check_jobs (t : ExecTree.t) :
  ExecTree.is_done_check t = true →
  Forall (λ job, ExecJob.mustcomplete job = true → ExecJob.is_done job = true)
         (ExecTree.jobs t).
Proof.
  unfold ExecTree.is_done_check. intros H. apply Forall_forall. intros j Hj Hm.
  rewrite forallb_forall in H. apply list_elem_of_In in Hj. specialize (H j Hj).
  rewrite Hm in H. by apply andb_true_iff in H as [_ H].
Qed.

Lemma jobs_is_done_check (t : ExecTree.t) :
  ExecTree.cancelled t = true →
  Forall (λ job, ExecJob.mustcomplete job = true → ExecJob.is_done job = true)
         (ExecTree.jobs t) →
  ExecTree.is_done_check t = true.
Proof.
  intros Hc H. rewrite is_done_check_cancelled by done.
  apply forallb_forall. intros j Hj. apply list_elem_of_In in Hj.
  rewrite Forall_forall in H. specialize (H j Hj).
  destruct (ExecJob.mustcomplete j); [by rewrite H | done].
Qed.

Lemma cancel_keeps_done (t : ExecTree.t) :
  Forall (λ job, ExecJob.mustcomplete job = true → ExecJob.is_done job = true)
         (ExecTree.jobs t) →
  Forall (λ job, ExecJob.mustcomplete job = true → ExecJob.is_done job = true)
         (ExecTree.jobs (ExecTree.cancel t))
  ∧ (ExecTree.done_event t = true → ExecTree.done_event (ExecTree.cancel t) = true).
Proof.
  intros H. destruct (ExecTree.cancelled t) eqn:Hc.
  { destruct t; simpl in *. by rewrite Hc. }
  rewrite (cancel_unfold t Hc). cbv zeta.
  assert (Forall (λ job, ExecJob.mustcomplete job = true → ExecJob.is_done job = true)
            ((λ job, snd (ExecJob.cancel job)) <$> ExecTree.jobs t)) as H'.
  { apply Forall_fmap. eapply Forall_impl; [exact H |]. intros j Hj. simpl.
    destruct (job_cancel_outcome j) as (_ & Hm & _ & Hsame). rewrite Hm.
    intros Hmc. by rewrite (Hsame (Hj Hmc)), (Hj Hmc). }
  destruct (ExecTree.is_done_check _); simpl; done.
Qed.

Lemma cancel_fixed (t : ExecTree.t) :
  ExecTree.cancelled t = true → ExecTree.cancel t = t.
Proof. intros Hc. destruct t; simpl in *. by rewrite Hc. Qed.

Lemma with_flags_same (t : ExecTree.t) :
  ExecTree.with_flags t (ExecTree.done_event t) (ExecTree.cancelled t) = t.
Proof. by destruct t. Qed.

(** X18: when [is_done()] returns False the tree is left as it was.  When
    it returns True, every must-complete job is in a DONE state, the done
    event is set and the tree is cancelled, but [_done], the flag the JSON
    updater loops on, is left as it was.  Asking again gives the same
    answer and changes nothing more. *)
Theorem tree_is_done_spec (t : ExecTree.t) :
  (fst (ExecTree.is_done t) = false → snd (ExecTree.is_done t) = t)
  ∧ (fst (ExecTree.is_done t) = true →
     Forall (λ job, ExecJob.mustcomplete job = true → ExecJob.is_done job = true)
            (ExecTree.jobs t)
     ∧ Forall (λ job, ExecJob.mustcomplete job = true → ExecJob.is_done job = true)
              (ExecTree.jobs (snd (ExecTree.is_done t)))
     ∧ ExecTree.done_event (snd (ExecTree.is_done t)) = true
     ∧ ExecTree.cancelled (snd (ExecTree.is_done t)) = true)
  ∧ ExecTree._done (snd (ExecTree.is_done t)) = ExecTree._done t
  ∧ ExecTree.is_done (snd (ExecTree.is_done t)) = ExecTree.is_done t.
Proof.
  unfold ExecTree.is_done. destruct (ExecTree.is_done_check t) eqn:Hck; cbn [fst snd].
  2: { rewrite Hck. done. }
  split; [done |].
  pose proof (is_done_check_jobs t Hck) as Hjobs.
  set (t0 := ExecTree.with_flags t true (ExecTree.cancelled t)).
  destruct (cancel_keeps_done t0 Hjobs) as [Hjobs' Hev].
  destruct (cancel_cancelled t0) as [Hc' Hd'].
  specialize (Hev eq_refl).
  split; [by intros _ |]. split; [exact Hd' |].
  rewrite (jobs_is_done_check _ Hc' Hjobs'). f_equal.
  rewrite <- Hev at 1. rewrite with_flags_same. by apply cancel_fixed.
Qed.

Lemma tree_is_done_spec_witness :
  fst (ExecTree.is_done (Engine.tree Examples.chain_after)) = false
  ∧ snd (ExecTree.is_done (Engine.tree Examples.chain_after))
    = Engine.tree Examples.chain_after.
Proof.
  split; [reflexivity |].
  apply (proj1 (tree_is_done_spec (Engine.tree Examples.chain_after))). reflexivity.
Defined.


(** ** The resources and the counters of a running tree *)

Lemma put_resource_bounded caps tr r res res' :
  Forall2 ExecResource.bounded caps (ExecTree.resources tr) →
  ExecTree.resources tr !! r = Some res →
  (∀ cap, ExecResource.bounded cap res → ExecResource.bounded cap res') →
  Forall2 ExecResource.bounded caps (ExecTree.resources (Engine.put_resource tr r res')).
Proof.
  intros Hall Hr Hstep. unfold Engine.put_resource. cbn [ExecTree.resources ExecTree.with_resources].
  destruct (Forall2_lookup_r _ _ _ _ _ Hall Hr) as (cap & Hcap & Hb).
  rewrite <- (list_insert_id caps r cap Hcap).
  apply Forall2_insert; [done |]. by apply Hstep.
Qed.

Lemma put_job_resources tr j job :
  ExecTree.resources (Engine.put_job tr j job) = ExecTree.resources tr.
Proof. done. Qed.

Lemma release_resources_bounded caps rs tr :
  Forall2 ExecResource.bounded caps (ExecTree.resources tr) →
  Forall2 ExecResource.bounded caps
    (ExecTree.resources (Engine._release_resources tr rs)).
Proof.
  unfold Engine._release_resources. revert tr.
  induction rs as [| r rs IH]; intros tr Hall; simpl; [done |].
  apply IH. destruct (ExecTree.resources tr !! r) as [res |] eqn:Hr; [| done].
  eapply put_resource_bounded; [done | done |].
  intros cap Hb. eapply (step_ok cap ExecResource.Release res _ 0 0); [done |].
  reflexivity.
Qed.

Lemma task_step_bounded caps c j p tr p' tr' :
  Forall2 ExecResource.bounded caps (ExecTree.resources tr) →
  Engine.task_step c j p tr = Some (p', tr') →
  Forall2 ExecResource.bounded caps (ExecTree.resources tr').
Proof.
  intros Hall Hstep.
  unfold Engine.task_step, Engine.acquired, Engine.acquire_failed in Hstep.
  destruct (ExecTree.jobs tr !! j) as [job |]; [| done]. simpl in Hstep.
  destruct p as [| [| dep ds] | [| r todo] reserved attempt | r todo reserved attempt
                 | reserved attempt | | ret |], c; simplify_eq; try done.
  all: try (destruct (ExecTree.resources tr !! r) as [res |] eqn:Hr;
            simpl in Hstep; [| done]).
  all: try match type of Hstep with
           | context [ExecResource.reserve_enter true ?x] =>
               destruct (ExecResource.reserve_enter true x) as [res' [[] |]] eqn:He
           | context [ExecResource.reserve_wake ?x] =>
               destruct (ExecResource.reserve_wake x) as [res' [[] |]] eqn:He
           end.
  all: repeat (case_match; simplify_eq); simplify_eq; try done.
  all: rewrite ?put_job_resources; try apply release_resources_bounded; try done.
  all: (eapply put_resource_bounded; [done | done |]); intros cap Hb.
  all: try (eapply (step_ok cap (ExecResource.Reserve true) res _ 0);
            [done | simpl; by rewrite He]).
  all: try (eapply (step_ok cap ExecResource.Wake res _ 1);
            [done | simpl; by rewrite He]).
  all: done.
Qed.

Lemma step_bounded caps l s s' :
  Engine.resources_bounded caps s → Engine.step l s = Some s' →
  Engine.resources_bounded caps s'.
Proof.
  unfold Engine.resources_bounded. intros Hall Hstep.
  destruct l as [j | j | j | j v | i c]; simpl in Hstep.
  - unfold Engine.start in Hstep.
    destruct (ExecTree.jobs (Engine.tree s) !! j) as [job |]; [| done].
    simpl in Hstep. repeat case_match; simplify_eq; done.
  - destruct (ExecTree.jobs (Engine.tree s) !! j) as [job |]; by simplify_eq/=.
  - destruct (ExecTree.jobs (Engine.tree s) !! j) as [job |]; by simplify_eq/=.
  - destruct (ExecTree.jobs (Engine.tree s) !! j) as [job |]; [| done].
    simpl in Hstep. case_match; by simplify_eq/=.
  - destruct (Engine.tasks s !! i) as [t |]; [| done]. simpl in Hstep.
    destruct (Engine.task_step c (Engine.tjob t) (Engine.tpc t) (Engine.tree s))
      as [[p' tr'] |] eqn:Hts; [| done].
    simplify_eq/=. by eapply task_step_bounded.
Qed.

(** X19: in a tree whose resources have integer capacities and counters
    within [0, max(capacity, 0)], the counters stay there in every state
    the greenlets of the jobs go through, whatever the order they run in,
    whichever reservations time out, however the runners end and whatever
    [start], [cancel], [reset] and [jobpath] calls come in between. *)
Theorem run_resources_bounded (caps : list Z) (ls : list Engine.label)
    (s0 : Engine.sys) (tr : list Engine.sys) :
  Engine.resources_bounded caps s0 →
  Engine.run ls s0 = Some tr →
  Forall (Engine.resources_bounded caps) tr.
Proof.
  revert s0 tr. induction ls as [| l ls IH]; intros s0 tr H0 Hrun; simpl in Hrun.
  - simplify_eq. by apply Forall_singleton.
  - destruct (Engine.step l s0) as [s1 |] eqn:Hstep; [| done]. simpl in Hrun.
    destruct (Engine.run ls s1) as [tr1 |] eqn:Hrun1; [| done]. simplify_eq/=.
    apply Forall_cons. split; [done |].
    eapply IH; [| done]. by eapply step_bounded.
Qed.

Lemma run_resources_bounded_witness :
  Forall (Engine.resources_bounded [2; 1]%Z) Examples.retry_trace.
Proof.
  apply (run_resources_bounded [2; 1]%Z Examples.retry_schedule Examples.contention).
  - unfold Engine.resources_bounded, ExecResource.bounded, ExecResource.in_range.
    simpl. repeat constructor; simpl; lia.
  - reflexivity.
Defined.

Lemma set_state_counts job st :
  ExecJob.execcount (ExecJob.set_state job st) = ExecJob.execcount job
  ∧ ExecJob.failcount (ExecJob.set_state job st) = ExecJob.failcount job.
Proof. unfold ExecJob.set_state. by case_decide. Qed.

Lemma job_call_counts job c :
  ExecJob.execcount (ExecJob.apply job c) = ExecJob.execcount job
  ∧ ExecJob.failcount (ExecJob.apply job c) = ExecJob.failcount job.
Proof.
  destruct c as [v | st | v | |]; simpl.
  - unfold ExecJob.set_progress. by case_match.
  - apply set_state_counts.
  - unfold ExecJob.set_jobpath. repeat case_match; simplify_eq; try done.
    by destruct (set_state_counts (ExecJob.with_jobpath job v) STATE_UNDEF) as [-> ->].
  - unfold ExecJob.reset. case_bool_decide; [| done].
    destruct (set_state_counts
                (if (0 <? ExecJob.progress
                            (ExecJob.with_state_events job (ExecJob._state job)
                               (λ _, false) (ExecJob.statechange job)))%Z
                 then ExecJob.set_progress
                        (ExecJob.with_state_events job (ExecJob._state job)
                           (λ _, false) (ExecJob.statechange job)) 0
                 else ExecJob.with_state_events job (ExecJob._state job)
                        (λ _, false) (ExecJob.statechange job))
                STATE_RESET) as [-> ->].
    unfold ExecJob.set_progress. by repeat case_match.
  - unfold ExecJob.cancel. repeat case_match; try done. apply set_state_counts.
Qed.

Lemma put_job_counts tr j job job' :
  Forall (λ job, (0 ≤ ExecJob.failcount job ≤ ExecJob.execcount job)%Z)
         (ExecTree.jobs tr) →
  ExecTree.jobs tr !! j = Some job →
  ((0 ≤ ExecJob.failcount job ≤ ExecJob.execcount job)%Z →
   (0 ≤ ExecJob.failcount job' ≤ ExecJob.execcount job')%Z) →
  Forall (λ job, (0 ≤ ExecJob.failcount job ≤ ExecJob.execcount job)%Z)
         (ExecTree.jobs (Engine.put_job tr j job')).
Proof.
  intros Hall Hj Hstep. unfold Engine.put_job. cbn [ExecTree.jobs ExecTree.with_jobs].
  apply Forall_insert; [done |]. apply Hstep.
  rewrite Forall_lookup in Hall. by apply (Hall j).
Qed.

Lemma put_job_released tr rs j job :
  ExecTree.jobs (Engine.put_job (Engine._release_resources tr rs) j job)
  = ExecTree.jobs (Engine.put_job tr j job).
Proof.
  unfold Engine.put_job. cbn [ExecTree.jobs ExecTree.with_jobs].
  by rewrite (proj2 (release_resources_same tr rs)).
Qed.

Lemma task_step_counts c j p tr p' tr' :
  Forall (λ job, (0 ≤ ExecJob.failcount job ≤ ExecJob.execcount job)%Z)
         (ExecTree.jobs tr) →
  Engine.task_step c j p tr = Some (p', tr') →
  Forall (λ job, (0 ≤ ExecJob.failcount job ≤ ExecJob.execcount job)%Z)
         (ExecTree.jobs tr').
Proof.
  intros Hall Hstep.
  unfold Engine.task_step, Engine.acquired, Engine.acquire_failed in Hstep.
  destruct (ExecTree.jobs tr !! j) as [job |] eqn:Hjob; [| done]. simpl in Hstep.
  destruct p as [| [| dep ds] | [| r todo] reserved attempt | r todo reserved attempt
                 | reserved attempt | | ret |], c; simplify_eq; try done.
  all: try (destruct (ExecTree.resources tr !! r) as [res |] eqn:Hr;
            simpl in Hstep; [| done]).
  all: repeat (case_match; simplify_eq); simplify_eq; try done.
  all: rewrite ?put_job_released, ?(proj2 (release_resources_same _ _)); try done.
  all: (eapply put_job_counts; [done | done |]); intros Hc.
  all: repeat match goal with
         | |- context [ExecJob.set_state ?x ?s] =>
             destruct (set_state_counts x s) as [-> ->]
         end.
  all: simpl; lia.
Qed.

Lemma step_counts l s s' :
  Engine.counts_ordered s → Engine.step l s = Some s' → Engine.counts_ordered s'.
Proof.
  unfold Engine.counts_ordered. intros Hall Hstep.
  destruct l as [j | j | j | j v | i c]; simpl in Hstep.
  - unfold Engine.start in Hstep.
    destruct (ExecTree.jobs (Engine.tree s) !! j) as [job |] eqn:Hj; [| done].
    simpl in Hstep. repeat case_match; simplify_eq; try done.
    simpl. by eapply put_job_counts.
  - destruct (ExecTree.jobs (Engine.tree s) !! j) as [job |] eqn:Hj; simplify_eq/=.
    eapply put_job_counts; [done | done |].
    pose proof (job_call_counts job ExecJob.DoCancel) as [Hc1 Hc2]. simpl in Hc1, Hc2.
    by rewrite Hc1, Hc2.
  - destruct (ExecTree.jobs (Engine.tree s) !! j) as [job |] eqn:Hj; simplify_eq/=.
    eapply put_job_counts; [done | done |].
    pose proof (job_call_counts job ExecJob.DoReset) as [Hc1 Hc2]. simpl in Hc1, Hc2.
    by rewrite Hc1, Hc2.
  - destruct (ExecTree.jobs (Engine.tree s) !! j) as [job |] eqn:Hj; [| done].
    simpl in Hstep.
    pose proof (job_call_counts job (ExecJob.SetJobpath v)) as Hc. simpl in Hc.
    destruct (ExecJob.set_jobpath job v) as [job' | e]; simplify_eq/=; [| done].
    eapply put_job_counts; [done | done |]. by destruct Hc as [-> ->].
  - destruct (Engine.tasks s !! i) as [t |]; [| done]. simpl in Hstep.
    destruct (Engine.task_step c (Engine.tjob t) (Engine.tpc t) (Engine.tree s))
      as [[p' tr'] |] eqn:Hts; [| done].
    simplify_eq/=. by eapply task_step_counts.
Qed.

(** X20: if no job has failed more often than it has run when a schedule
    starts, that is so in every state the schedule goes through:
    [0 <= failcount <= execcount] for every job, whatever the greenlets do
    and whatever [start], [cancel], [reset] and [jobpath] calls come in
    between. *)
Theorem run_counts_ordered (ls : list Engine.label) (s0 : Engine.sys)
    (tr : list Engine.sys) :
  Engine.counts_ordered s0 →
  Engine.run ls s0 = Some tr →
  Forall Engine.counts_ordered tr.
Proof.
  revert s0 tr. induction ls as [| l ls IH]; intros s0 tr H0 Hrun; simpl in Hrun.
  - simplify_eq. by apply Forall_singleton.
  - destruct (Engine.step l s0) as [s1 |] eqn:Hstep; [| done]. simpl in Hrun.
    destruct (Engine.run ls s1) as [tr1 |] eqn:Hrun1; [| done]. simplify_eq/=.
    apply Forall_cons. split; [done |].
    eapply IH; [| done]. by eapply step_counts.
Qed.

Lemma run_counts_ordered_witness :
  Forall Engine.counts_ordered Examples.retry_trace.
Proof.
  apply (run_counts_ordered Examples.retry_schedule Examples.contention).
  - unfold Engine.counts_ordered. simpl. repeat constructor; simpl; lia.
  - reflexivity.
Defined.


(** ** A job written and read back *)

Lemma filter_fmap_all {A} (f : A → Element) (t : string) (l : list A) :
  (∀ x, tag (f x) = t) → filter (λ c, tag c = t) (f <$> l) = f <$> l.
Proof.
  intros H. induction l as [| x l IH]; [done |].
  rewrite fmap_cons, filter_cons_True by apply H. by rewrite IH.
Qed.

Lemma filter_fmap_none {A} (f : A → Element) (t : string) (l : list A) :
  (∀ x, tag (f x) ≠ t) → filter (λ c, tag c = t) (f <$> l) = [].
Proof.
  intros H. induction l as [| x l IH]; [done |].
  rewrite fmap_cons, filter_cons_False by apply H. exact IH.
Qed.

Lemma rmap_args (args : list string) :
  rmap (λ arg, attrib_item arg "value")
       ((λ arg, Elem "execArg" [("value", arg)] []) <$> args) = Ok args.
Proof.
  induction args as [| a args IH]; [done |].
  rewrite fmap_cons. cbn [rmap]. rewrite IH. reflexivity.
Qed.

Lemma rmap_resources (find_resource : string → option nat) (us : list string) :
  rmap (λ resource, u ←! attrib_item resource "uuid"; Ok (find_resource u))
       ((λ u, Elem "execResource" [("uuid", u)] []) <$> us)
  = Ok (find_resource <$> us).
Proof.
  induction us as [| u us IH]; [done |].
  rewrite !fmap_cons. cbn [rmap]. rewrite IH. reflexivity.
Qed.

Lemma omap_fmap_uuid (resource_uuid : nat → option string) (rs : list nat) :
  omap (λ r, (λ u, Elem "execResource" [("uuid", u)] []) <$> resource_uuid r) rs
  = (λ u, Elem "execResource" [("uuid", u)] []) <$> omap resource_uuid rs.
Proof.
  induction rs as [| r rs IH]; [done |]. simpl.
  destruct (resource_uuid r); simpl; [f_equal |]; exact IH.
Qed.

Lemma omap_found (find_resource : string → option nat)
    (resource_uuid : nat → option string) (rs : list nat) :
  omap id (find_resource <$> omap resource_uuid rs)
  = omap (λ r, resource_uuid r ≫= find_resource) rs.
Proof.
  induction rs as [| r rs IH]; [done |]. simpl.
  destruct (resource_uuid r) as [u |]; simpl; [| exact IH].
  destruct (find_resource u); simpl; [f_equal |]; exact IH.
Qed.

(** X21: a job without a sub-tree that is written with [xml()] and read
    back keeps its name, uuid, [mustcomplete], [href], [tcolor] and
    arguments; an empty [jobpath] or [logfile] comes back as None; a
    resource comes back when the tree finds one under its uuid.  The state,
    the progress and the two counters are not written: the job read back is
    IDLE (UNDEF when its [jobpath] is ["-"]) with progress -1 and both
    counters at 0. *)
Theorem job_round_trip (find_resource find_subtree : string → option nat)
    (subtree_uuid resource_uuid : nat → option string) (j : ExecJob.t) :
  UUID (ExecJob.uuid j) = Ok (ExecJob.uuid j) →
  ExecJob.subtree j = None →
  ∃ j',
    ExecJob.of_xml find_resource find_subtree
      (ExecJob.xml subtree_uuid resource_uuid j) = Ok j'
    ∧ ExecJob.name j' = ExecJob.name j
    ∧ ExecJob.uuid j' = ExecJob.uuid j
    ∧ ExecJob.mustcomplete j' = ExecJob.mustcomplete j
    ∧ ExecJob.href j' = ExecJob.href j
    ∧ ExecJob.tcolor j' = ExecJob.tcolor j
    ∧ ExecJob.arguments j' = ExecJob.arguments j
    ∧ ExecJob.jobpath j'
      = (if bool_decide (ExecJob.jobpath j = Some "") then None else ExecJob.jobpath j)
    ∧ ExecJob.logfile j'
      = (if bool_decide (ExecJob.logfile j = Some "") then None else ExecJob.logfile j)
    ∧ ExecJob.subtree j' = None
    ∧ ExecJob.resources j'
      = omap (λ r, resource_uuid r ≫= find_resource) (ExecJob.resources j)
    ∧ ExecJob.state j'
      = (if bool_decide (ExecJob.jobpath j = Some UNDEF_JOB)
         then STATE_UNDEF else STATE_IDLE)
    ∧ ExecJob.progress j' = (-1)%Z
    ∧ ExecJob.execcount j' = 0%Z
    ∧ ExecJob.failcount j' = 0%Z.
Proof.
  intros Hu Hst. unfold ExecJob.of_xml, ExecJob.xml. rewrite Hst.
  rewrite omap_fmap_uuid.
  set (args := (λ arg, Elem "execArg" [("value", arg)] []) <$> ExecJob.arguments j).
  set (ress := (λ u, Elem "execResource" [("uuid", u)] [])
                 <$> omap resource_uuid (ExecJob.resources j)).
  assert (∀ a, findall (Elem "execJob" a (args ++ ress)) "execArg" = args) as Hfa.
  { intros a. unfold findall. cbn [children]. rewrite filter_app.
    unfold args, ress.
    rewrite filter_fmap_all, filter_fmap_none
      by (intros ?; simpl; first [reflexivity | discriminate]).
    apply app_nil_r. }
  assert (∀ a, findall (Elem "execJob" a (args ++ ress)) "execResource" = ress) as Hfr.
  { intros a. unfold findall. cbn [children]. rewrite filter_app.
    unfold args, ress.
    rewrite filter_fmap_none, filter_fmap_all
      by (intros ?; simpl; first [reflexivity | discriminate]).
    done. }
  rewrite !Hfa, !Hfr. unfold args, ress. rewrite rmap_args, rmap_resources.
  destruct j as [nm uu st ev sc sub jp mc lf pr ov ar rs ec fc hr tc].
  simpl in *. subst sub.
  unfold attrib_item, attrib_get. cbn [tag attrib].
  destruct jp as [p |]; simpl; rewrite Hu; simpl.
  all: rewrite omap_found.
  all: assert (match default "" lf with
               | "" => None
               | String _ _ => Some (default "" lf)
               end = if bool_decide (lf = Some "") then None else lf) as ->
         by (by destruct lf as [[| c l] |]).
  all: assert (bool_decide (Some (py_str_bool mc) = Some "True") = mc) as ->
         by (by destruct mc).
  - unfold ExecJob.init, ExecJob.set_jobpath, py_in, UNDEF_JOB. simpl.
    destruct (decide (p = "")) as [-> | Hne].
    { simpl. eexists. split; [reflexivity |]. repeat split. }
    rewrite (bool_decide_eq_false_2 (Some p = Some "")) by congruence. simpl.
    destruct (decide (p = "-")) as [-> | Hne'].
    { simpl. eexists. split; [reflexivity |]. repeat split. }
    rewrite (bool_decide_eq_false_2 (Some p = Some "-")) by congruence. simpl.
    eexists. split; [reflexivity |]. repeat split.
  - unfold ExecJob.init, ExecJob.set_jobpath, py_in. simpl.
    eexists. split; [reflexivity |]. repeat split.
Qed.

Lemma job_round_trip_witness :
  ∃ j',
    ExecJob.of_xml (λ _, None) (λ _, None)
      (ExecJob.xml (λ _, None) (λ _, None)
         (ExecJob.set_state (Examples.job Examples.uuid_a "A" "/bin/true" [])
            STATE_FAILED)) = Ok j'
    ∧ ExecJob.state j' = STATE_IDLE.
Proof.
  destruct (job_round_trip (λ _, None) (λ _, None) (λ _, None) (λ _, None)
              (ExecJob.set_state (Examples.job Examples.uuid_a "A" "/bin/true" [])
                 STATE_FAILED) eq_refl eq_refl)
    as (j' & Hj & _ & _ & _ & _ & _ & _ & _ & _ & _ & _ & Hs & _).
  exists j'. split; [exact Hj | exact Hs].
Defined.
